(** * ChatAgentCore: a shallow embedding of the hub's core and its properties

    The development follows the Python sources of the repository:

    - [Py]                 dynamically typed values (JSON payloads, attributes)
    - [Feishu], [DingTalk], [QQ]
                           the adapters' event-to-Message conversions, and
                           what the Feishu and QQ adapters send
    - [MessageRouter]      [core/router.py]
    - [Schemas], [ConfigManager]
                           [api/schemas/config.py], [core/config_manager.py]
    - [ConnectionManager]  [api/websocket/manager.py]
    - [Endpoint]           the [/ws/events] loop of [api/main.py]
    - [Lifespan]           the start-up of [api/main.py]

    Definitions come first; the lemmas and theorems about them follow in the
    second half of the file. *)

From Stdlib Require Import ZArith Floats.
From stdpp Require Import gmap strings list fin_maps pretty.

Set Warnings "-register-all".

Local Open Scope string_scope.
Local Open Scope Z_scope.
Local Open Scope list_scope.

(* ===================================================================== *)
(** * Results of fallible code *)
(* ===================================================================== *)

(** The exceptions the modelled code raises or receives. *)
Inductive exn :=
  | AttributeError            (* [.get] / [.startswith] on a value without it *)
  | TypeError                 (* unhashable dictionary key *)
  | ValueError (msg : string) (* [int()] of a bad literal, [route_outgoing] *)
  | KeyError (k : string)
  | RuntimeError (msg : string)
  | ValidationError           (* pydantic *)
  | YAMLError                 (* unreadable or unparsable document *)
  | TimeoutError              (* [asyncio.wait_for] *)
  | TransportError (msg : string). (* network, websocket or platform API *)

Inductive res (A : Type) :=
  | Ok (a : A)
  | Raise (e : exn).
Arguments Ok {A} a.
Arguments Raise {A} e.

Definition res_bind {A B} (r : res A) (k : A → res B) : res B :=
  match r with
  | Ok a => k a
  | Raise e => Raise e
  end.

Notation "'let?' x ':=' r 'in' k" := (res_bind r (λ x, k))
  (at level 10, x name, r at level 100, k at level 200).
Notation "'let?' ' p ':=' r 'in' k" :=
  (res_bind r (λ x, match x with p => k end))
  (at level 10, p pattern, r at level 100, k at level 200).

(* ===================================================================== *)
(** * Python values *)
(* ===================================================================== *)

Module Py.

(** What [json.loads] produces, which is also what adapter SDK objects
    carry in their attributes.  A dictionary is kept as an association
    list; the first binding of a key is the one [get] sees. *)
Inductive pyval :=
  | PNone
  | PBool (b : bool)
  | PInt (n : Z)
  | PFloat (f : float)
  | PStr (s : string)
  | PList (l : list pyval)
  | PDict (kv : list (string * pyval)).

(** Python truthiness, as used by [not x], [x or y] and [if x]. *)
Definition truthy (v : pyval) : bool :=
  match v with
  | PNone => false
  | PBool b => b
  | PInt n => negb (n =? 0)
  | PFloat f => negb (PrimFloat.eqb f 0%float)
  | PStr s => negb (String.eqb s "")
  | PList l => match l with [] => false | _ => true end
  | PDict kv => match kv with [] => false | _ => true end
  end.

(** [a or b] *)
Definition por (a b : pyval) : pyval := if truthy a then a else b.

(** [v == "literal"]: a string equals only an equal string. *)
Definition eq_str (v : pyval) (s : string) : bool :=
  match v with
  | PStr t => String.eqb t s
  | _ => false
  end.

Fixpoint assoc (k : string) (kv : list (string * pyval)) : option pyval :=
  match kv with
  | [] => None
  | (k', v) :: rest => if String.eqb k k' then Some v else assoc k rest
  end.

(** [d.get(k, dflt)]; only dictionaries have [get]. *)
Definition get (d : pyval) (k : string) (dflt : pyval) : res pyval :=
  match d with
  | PDict kv => Ok (default dflt (assoc k kv))
  | _ => Raise AttributeError
  end.

(** [k in d] for the dictionaries the adapters test.  On a string or a
    list Python answers by substring or element search and on a number it
    raises [TypeError]; every such path of the modelled code then calls
    [d.get] and raises, so the embedding raises at the test already. *)
Definition has_key (d : pyval) (k : string) : res bool :=
  match d with
  | PDict kv => Ok (bool_decide (is_Some (assoc k kv)))
  | _ => Raise AttributeError
  end.

Definition empty_dict : pyval := PDict [].

(** Whether a value can be a dictionary key. *)
Definition hashable (v : pyval) : bool :=
  match v with
  | PList _ | PDict _ => false
  | _ => true
  end.

(** The Python built-ins whose full definition the adapters do not depend
    on: [repr] of a non-string value, [json.loads] and [int]. *)
Record builtins := {
  repr : pyval → string;
  json_loads : string → option pyval;   (* [None]: [JSONDecodeError] *)
  to_int : pyval → option Z;            (* [None]: [int()] raises *)
}.

(** [str(v)] *)
Definition str (B : builtins) (v : pyval) : string :=
  match v with
  | PStr s => s
  | PNone => "None"
  | PBool true => "True"
  | PBool false => "False"
  | PInt n => pretty n
  | _ => repr B v
  end.

Definition is_str (v : pyval) : bool :=
  match v with PStr _ => true | _ => false end.
Definition is_dict (v : pyval) : bool :=
  match v with PDict _ => true | _ => false end.

(** [s.startswith(p)]; only strings have it. *)
Definition startswith (v : pyval) (p : string) : res bool :=
  match v with
  | PStr s => Ok (String.prefix p s)
  | _ => Raise AttributeError
  end.

End Py.

(* ===================================================================== *)
(** * The unified message ([adapters.base.Message]) *)
(* ===================================================================== *)

Module Base.

Record SenderInfo := {
  sender_id : Py.pyval;
  sender_name : Py.pyval;
  sender_type : Py.pyval;
}.

Record ConversationInfo := {
  conversation_id : Py.pyval;
  conversation_type : Py.pyval;
}.

Record MessageContent := {
  content_type : Py.pyval;
  content_text : Py.pyval;
  content_data : Py.pyval;
}.

Record Message := {
  platform : string;
  message_id : Py.pyval;
  sender : SenderInfo;
  conversation : ConversationInfo;
  content : MessageContent;
  timestamp : Z;
}.

End Base.

(* ===================================================================== *)
(** * Feishu: [FeishuAdapter._parse_message_from_event] *)
(* ===================================================================== *)

Module Feishu.
Import Py Base.

Section Parse.
Variable B : builtins.

(** [event.get("message", {})], then [event.data.message], then the
    event itself. *)
Definition message_obj_of (event : pyval) : res pyval :=
  let? m0 := get event "message" empty_dict in
  let? m1 :=
    if truthy m0 then Ok m0
    else
      let? data := get event "data" empty_dict in
      if truthy data then get data "message" empty_dict else Ok m0 in
  Ok (if truthy m1 then m1 else event).

(** [event.get("sender")], then [event.data.sender], then [{}]. *)
Definition sender_of (event : pyval) : res pyval :=
  let? s0 := get event "sender" PNone in
  let? s1 :=
    if truthy s0 then Ok s0
    else
      let? data := get event "data" empty_dict in
      get data "sender" PNone in
  Ok (por s1 empty_dict).

Definition sender_id_of (sender : pyval) : res pyval :=
  let? h1 := has_key sender "sender_id" in
  if h1 then
    let? sender_id_obj := get sender "sender_id" empty_dict in
    get sender_id_obj "open_id" (PStr "")
  else
    let? h2 := has_key sender "open_id" in
    if h2 then get sender "open_id" (PStr "")
    else
      let? h3 := has_key sender "sender_type" in
      if h3 then
        let? u := get sender "user_id" (PStr "") in
        let? o := get sender "open_id" (PStr "") in
        Ok (por (PStr (str B u)) (PStr (str B o)))
      else Ok (PStr "").

(** The pair [(content_data, content_raw)] *)
Definition content_data_of (message_obj : pyval) : res (pyval * pyval) :=
  let? content_raw := get message_obj "content" (PStr "") in
  let content_data :=
    if truthy content_raw then
      match content_raw with
      | PStr s =>
          match json_loads B s with
          | Some v => v
          | None => PDict [("text", content_raw)]
          end
      | PDict _ => content_raw
      | _ => empty_dict
      end
    else PDict [("text", PStr "")] in
  Ok (content_data, content_raw).

Definition text_content_of (message_type content_data content_raw : pyval)
  : res pyval :=
  if eq_str message_type "text" then
    if truthy content_data && is_dict content_data
    then get content_data "text" (PStr "")
    else if truthy content_raw then Ok (PStr (str B content_data))
    else Ok (PStr "")
  else if eq_str message_type "interactive" then Ok (PStr "[卡片消息]")
  else if eq_str message_type "post" then Ok (PStr "[富文本消息]")
  else Ok (PStr ("[" +:+ str B message_type +:+ " 消息]")).

(** [message_obj.get("chat_type", "user") or
     ("group" if chat_id and chat_id.startswith("oc_") else "user")] *)
Definition chat_type_of (message_obj chat_id : pyval) : res pyval :=
  let? c := get message_obj "chat_type" (PStr "user") in
  if truthy c then Ok c
  else if truthy chat_id then
    let? p := startswith chat_id "oc_" in
    Ok (PStr (if p then "group" else "user"))
  else Ok (PStr "user").

(** [int(message_obj.get("create_time", 0) or header.get("create_time", 0))
     * 1000] *)
Definition timestamp_of (message_obj header : pyval) : res Z :=
  let? t0 := get message_obj "create_time" (PInt 0) in
  let? t :=
    if truthy t0 then Ok t0 else get header "create_time" (PInt 0) in
  match to_int B t with
  | Some n => Ok (n * 1000)
  | None => Raise (ValueError "invalid literal for int()")
  end.

Definition _parse_message_from_event (event_data : pyval) : res Base.Message :=
  let? header := get event_data "header" empty_dict in
  let? event := get event_data "event" empty_dict in
  let? message_obj := message_obj_of event in
  let? message_id := get message_obj "message_id" (PStr "") in
  let? chat_id := get message_obj "chat_id" (PStr "") in
  let? mt0 := get message_obj "message_type" PNone in
  let? mt1 := get message_obj "msg_type" (PStr "") in
  let message_type := por mt0 mt1 in
  let? sender := sender_of event in
  let? sender_id := sender_id_of sender in
  let? sender_type := get sender "sender_type" (PStr "user") in
  let? '(content_data, content_raw) := content_data_of message_obj in
  let? text_content :=
    text_content_of message_type content_data content_raw in
  let? chat_type := chat_type_of message_obj chat_id in
  let final_conv_id :=
    if eq_str chat_type "user" then sender_id else chat_id in
  let? ts := timestamp_of message_obj header in
  Ok {| platform := "feishu";
        message_id := message_id;
        sender := {| sender_id := sender_id;
                     sender_name := sender_type;
                     sender_type := sender_type |};
        conversation := {| conversation_id := final_conv_id;
                           conversation_type := chat_type |};
        content := {| content_type := message_type;
                      content_text := text_content;
                      content_data :=
                        if truthy content_data then content_data
                        else empty_dict |};
        timestamp := ts |}.

(** The platform-issued chat handle of an event: the [chat_id] of its
    message object. *)
Definition chat_handle (event_data : pyval) : res pyval :=
  let? event := get event_data "event" empty_dict in
  let? message_obj := message_obj_of event in
  get message_obj "chat_id" (PStr "").

End Parse.

(** ** [FeishuAdapter.send_message] *)

(** What awaiting a call of [FeishuClientSDK] gives: the truth value it
    returns or the error it raises.  [json.JSONDecodeError] is told apart
    because [send_message] catches it around the card call. *)
Inductive reply :=
  | Returns (result : bool)
  | RaisesDecodeError
  | Raises (e : exn).

(** The two calls of the client that [send_message] awaits. *)
Record client := {
  send_text_message : string → string → string → reply;
  send_card_message : string → pyval → string → reply;
}.

(** [result = await self._client.send_text_message(to, content, t)
     if result: return to
     raise Exception("消息发送失败")] *)
Definition send_as_text (c : client) (to content receive_id_type : string)
  : res string :=
  match send_text_message c to content receive_id_type with
  | Returns true => Ok to
  | Returns false => Raise (TransportError "消息发送失败")
  | RaisesDecodeError => Raise (ValueError "JSONDecodeError")
  | Raises e => Raise e
  end.

Definition send_message (B : builtins) (_client : option client)
    (to message_type content conversation_type : string) : res string :=
  match _client with
  | None => Raise (RuntimeError "客户端未初始化，请先调用 initialize()")
  | Some c =>
      let receive_id_type :=
        if String.eqb conversation_type "user" then "open_id" else "chat_id" in
      if String.eqb message_type "text" then
        send_as_text c to content receive_id_type
      else if String.eqb message_type "card" then
        match json_loads B content with
        | Some card_data =>
            match send_card_message c to card_data receive_id_type with
            | Returns true => Ok to
            | Returns false => Raise (TransportError "卡片消息发送失败")
            | RaisesDecodeError => send_as_text c to content receive_id_type
            | Raises e => Raise e
            end
        | None => (* not JSON: sent as text *)
            send_as_text c to content receive_id_type
        end
      else (* other types are sent as text for now *)
        send_as_text c to content receive_id_type
  end.

(** ** [FeishuAdapter.handle_webhook] *)

(** The coroutines the adapter hands to [asyncio.create_task]. *)
Inductive task :=
  | MessageEvent (event_data : pyval)     (* [_handle_message_event_async] *)
  | AtMessageEvent (event_data : pyval).  (* [_handle_at_message_event_async] *)

Definition success : pyval := PDict [("msg", PStr "success")].

(** The response and the tasks created, for a call made inside the running
    event loop.  [exn_str e] is [str(e)]. *)
Definition handle_webhook (exn_str : exn → string) (_connection_mode : string)
    (event_data : pyval) : pyval * list task :=
  if negb (String.eqb _connection_mode "webhook") then
    (* warning: websocket mode *) (success, [])
  else
    match
      (let? header := get event_data "header" empty_dict in
       let? event := get event_data "event" (PStr "") in
       let? event_type := get header "event_type" (PStr "") in
       let? log_id := get header "log_id" (PStr "") in
       Ok (if eq_str event_type "im.message.receive_v1"
              || eq_str event_type "im.message.group_at_v1"
           then [MessageEvent event_data]
           else if eq_str event_type "im.message.group_at_v1"
           then [AtMessageEvent event_data]
           else []))
    with
    | Ok tasks => (success, tasks)
    | Raise e => (PDict [("code", PInt 1); ("msg", PStr (exn_str e))], [])
    end.

End Feishu.


(* ===================================================================== *)
(** * DingTalk: [DingTalkAdapter._parse_message] *)
(* ===================================================================== *)

Module DingTalk.
Import Py Base.

(** The attributes of [dingtalk_stream.ChatbotMessage] that the adapter
    reads.  [text] is [Some c] for a text object whose [content] is [c];
    [text_list] is what [get_text_list()] returns. *)
Record ChatbotMessage := {
  message_type : pyval;
  text : option pyval;
  text_list : option (list string);
  conversation_type : pyval;
  conversation_id : pyval;
  sender_staff_id : pyval;
  sender_id : pyval;
  message_id : pyval;
  sender_nick : pyval;
  to_dict : pyval;
  create_at : pyval;
}.

Section Parse.
Variable B : builtins.
(** [int(time.time() * 1000)] at the time of the call *)
Variable now_ms : Z.

Definition text_content_of (ding_msg : ChatbotMessage) : pyval :=
  if eq_str (message_type ding_msg) "text" then
    match text ding_msg with
    | Some c => c
    | None => PStr ""
    end
  else if eq_str (message_type ding_msg) "richText" then
    match text_list ding_msg with
    | Some (t :: ts) => PStr (String.concat "" (t :: ts))
    | _ => PStr "[富文本]"
    end
  else PStr ("[" +:+ str B (message_type ding_msg) +:+ "]").

Definition _parse_message (ding_msg : ChatbotMessage) : res Base.Message :=
  let text_content := text_content_of ding_msg in
  (* 1: one-to-one chat, 2: group chat *)
  let conv_type :=
    if eq_str (conversation_type ding_msg) "2" then "group" else "user" in
  let conv_id :=
    if String.eqb conv_type "user"
    then por (sender_staff_id ding_msg) (sender_id ding_msg)
    else conversation_id ding_msg in
  let? ts :=
    if truthy (create_at ding_msg) then
      match to_int B (create_at ding_msg) with
      | Some n => Ok n
      | None => Raise (ValueError "invalid literal for int()")
      end
    else Ok now_ms in
  Ok {| platform := "dingtalk";
        Base.message_id := PStr (str B (message_id ding_msg));
        sender :=
          {| Base.sender_id :=
               por (sender_staff_id ding_msg) (sender_id ding_msg);
             sender_name := por (sender_nick ding_msg) (PStr "DingTalkUser");
             sender_type := PStr "user" |};
        conversation :=
          {| Base.conversation_id := conv_id;
             Base.conversation_type := PStr conv_type |};
        content :=
          {| content_type :=
               if eq_str (message_type ding_msg) "text" then PStr "text"
               else message_type ding_msg;
             content_text := text_content;
             content_data := to_dict ding_msg |};
        timestamp := ts |}.

End Parse.
End DingTalk.

(* ===================================================================== *)
(** * QQ: [QQBotClient._handle_message] and its three entry points *)
(* ===================================================================== *)

Module QQ.
Import Py Base.

(** A botpy message object.  Each attribute is [None] when the object does
    not have it, so that [getattr(o, name, dflt)] is [default dflt]. *)
Record Author := {
  a_id : option pyval;
  a_user_openid : option pyval;
  a_member_openid : option pyval;
}.

Record BotMessage := {
  m_content : option pyval;
  m_author : option Author;     (* [None]: missing or [None] *)
  m_author_id : option pyval;
  m_group_openid : option pyval;
  m_channel_id : option pyval;
  m_id : option pyval;
}.

Definition getattr (o : option pyval) (dflt : pyval) : pyval := default dflt o.

(** [QQAdapter._last_msg_ids]: newest binding first. *)
Definition last_msg_ids := list (pyval * pyval).

Section Handle.
(** [int(time.time())] at the time of the call *)
Variable now_s : Z.

Definition sender_id_of (message : BotMessage) : pyval :=
  let s0 :=
    match m_author message with
    | Some author =>
        por (getattr (a_id author) (PStr ""))
          (por (getattr (a_user_openid author) (PStr ""))
               (getattr (a_member_openid author) (PStr "")))
    | None => PStr ""
    end in
  if truthy s0 then s0 else getattr (m_author_id message) (PStr "").

(** The body of the [try] block up to and including the construction of
    the [Message]; the handler is called with the result. *)
Definition _handle_message (message : BotMessage) (conversation_type : string)
    (ids : last_msg_ids) : res (Base.Message * last_msg_ids) :=
  let content_str := getattr (m_content message) (PStr "") in
  let sender_id := sender_id_of message in
  let conversation_id :=
    if String.eqb conversation_type "group"
    then getattr (m_group_openid message) (PStr "")
    else if String.eqb conversation_type "guild"
    then getattr (m_channel_id message) (PStr "")
    else if String.eqb conversation_type "user" then sender_id
    else PStr "" in
  let msg_id := getattr (m_id message) (PStr "") in
  let? ids' :=
    if truthy msg_id && truthy conversation_id then
      if hashable conversation_id then Ok ((conversation_id, msg_id) :: ids)
      else Raise TypeError
    else Ok ids in
  Ok ({| platform := "qq";
         message_id := msg_id;
         sender := {| Base.sender_id := sender_id;
                      sender_name := PStr "User";
                      sender_type := PStr "user" |};
         conversation :=
           {| Base.conversation_id := conversation_id;
              Base.conversation_type := PStr conversation_type |};
         content := {| content_type := PStr "text";
                       content_text := content_str;
                       content_data := empty_dict |};
         timestamp := now_s |}, ids').

Definition on_at_message_create (message : BotMessage) :=
  _handle_message message "guild".
Definition on_group_at_message_create (message : BotMessage) :=
  _handle_message message "group".
Definition on_c2c_message_create (message : BotMessage) :=
  _handle_message message "user".

End Handle.

(** ** [QQAdapter.send_message] *)

(** What a botpy API call answers: [None], a dictionary, or an object with
    optional [id] and [msg_id] attributes. *)
Inductive api_response :=
  | RNone
  | RDict (kv : list (string * pyval))
  | RObject (id msg_id : option pyval).

(** The three API calls, by their keyword arguments ([msg_type] is always
    0): group and C2C messages take [openid], [msg_id], [content]; guild
    messages take [channel_id], [content]. *)
Record api := {
  post_group_message : string → pyval → string → res api_response;
  post_c2c_message : string → pyval → string → res api_response;
  post_message : string → string → res api_response;
}.

(** [self._last_msg_ids.get(to, "0")] for a string [to] *)
Definition last_msg_id (ids : last_msg_ids) (to : string) : pyval :=
  match find (λ p : pyval * pyval, eq_str p.1 to) ids with
  | Some p => p.2
  | None => PStr "0"
  end.

Definition response_id (r : api_response) : pyval :=
  match r with
  | RNone => PStr ""
  | RDict kv => default (default (PStr "") (assoc "msg_id" kv)) (assoc "id" kv)
  | RObject id msg_id => default (default (PStr "") msg_id) id
  end.

(** [client] is [None] when the client, its API or its loop is missing.
    The coroutine [_do_send] runs on the client's loop and its result comes
    back through [run_coroutine_threadsafe]; the bridge is taken to hand
    the result over. *)
Definition send_message (client : option api) (ids : last_msg_ids)
    (to message_type content conversation_type : string) : res pyval :=
  match client with
  | None => Raise (RuntimeError "QQ Client not ready")
  | Some a =>
      let conversation_type :=
        if String.eqb conversation_type "" then "user"
        else conversation_type in
      let msg_id_to_reply := last_msg_id ids to in
      let res :=
        if String.eqb conversation_type "group"
        then post_group_message a to msg_id_to_reply content
        else if String.eqb conversation_type "user"
        then post_c2c_message a to msg_id_to_reply content
        else if String.eqb conversation_type "guild"
        then post_message a to content
        else Ok RNone in
      match res with
      | Ok r => Ok (response_id r)
      | Raise _ => (* logged *) Ok (PStr "")
      end
  end.

End QQ.

(* ===================================================================== *)
(** * Every adapter variant's inbound conversion *)
(* ===================================================================== *)

(** An inbound platform event together with the entry point it arrives at. *)
Inductive inbound :=
  | FeishuEvent (event_data : Py.pyval)
  | DingTalkBotMessage (ding_msg : DingTalk.ChatbotMessage)
  | QQGuildAt (message : QQ.BotMessage) (ids : QQ.last_msg_ids)
  | QQGroupAt (message : QQ.BotMessage) (ids : QQ.last_msg_ids)
  | QQC2C (message : QQ.BotMessage) (ids : QQ.last_msg_ids).

(** The clock readings and built-ins a conversion may consult. *)
Record runtime := {
  rt_builtins : Py.builtins;
  rt_now_ms : Z;
  rt_now_s : Z;
}.

(** The canonical message an adapter hands to its handler, if any. *)
Definition produce (R : runtime) (ev : inbound) : res Base.Message :=
  match ev with
  | FeishuEvent d => Feishu._parse_message_from_event (rt_builtins R) d
  | DingTalkBotMessage m =>
      DingTalk._parse_message (rt_builtins R) (rt_now_ms R) m
  | QQGuildAt m ids =>
      let? r := QQ.on_at_message_create (rt_now_s R) m ids in Ok r.1
  | QQGroupAt m ids =>
      let? r := QQ.on_group_at_message_create (rt_now_s R) m ids in Ok r.1
  | QQC2C m ids =>
      let? r := QQ.on_c2c_message_create (rt_now_s R) m ids in Ok r.1
  end.

(** The platform-issued group or channel handle carried by an event. *)
Definition group_handle (R : runtime) (ev : inbound) : res Py.pyval :=
  match ev with
  | FeishuEvent d => Feishu.chat_handle d
  | DingTalkBotMessage m => Ok (DingTalk.conversation_id m)
  | QQGuildAt m _ => Ok (QQ.getattr (QQ.m_channel_id m) (Py.PStr ""))
  | QQGroupAt m _ | QQC2C m _ =>
      Ok (QQ.getattr (QQ.m_group_openid m) (Py.PStr ""))
  end.

(* ===================================================================== *)
(** * The message router ([core/router.py]) *)
(* ===================================================================== *)

Module MessageRouter.

(** A live adapter instance as the router uses it: [send_message] gives the
    outcome of awaiting [adapter.send_message(to, message_type, content,
    conversation_type)], a platform message id or the error raised. *)
Record adapter := {
  send_message : string → string → string → string → res string;
}.

(** Modelled from the spec: [core/adapter_manager.py] is not among the
    sources.  The registry holds at most one live instance per platform
    name and [get_adapter(name) -> instance | absent] is a lookup with no
    side effects. *)
Record AdapterManager := {
  live : gmap string adapter;
}.

Definition get_adapter (am : AdapterManager) (name : string) : option adapter :=
  live am !! name.

(** An [asyncio.Future] *)
Inductive future :=
  | Pending
  | Result (message_id : string)
  | Exception (e : exn).

Record router := {
  adapter_manager : AdapterManager;
  _pending_messages : gmap string future;
  _running : bool;
}.

(** [MessageRouter.__init__] *)
Definition init (am : AdapterManager) : router :=
  {| adapter_manager := am; _pending_messages := ∅; _running := false |}.

Definition not_loaded (platform : string) : exn :=
  ValueError ("Adapter not loaded for platform: " +:+ platform).

Definition route_outgoing (r : router)
    (platform to message_type content conversation_type : string)
  : res string :=
  match get_adapter (adapter_manager r) platform with
  | None => Raise (not_loaded platform)
  | Some adapter =>
      match send_message adapter to message_type content conversation_type with
      | Ok message_id => Ok message_id
      | Raise e => (* logged *) Raise e
      end
  end.

(** [f"msg_{uuid.uuid4().hex}"], for the 32 hexadecimal digits drawn *)
Definition create_message_id (uuid_hex : string) : string :=
  "msg_" +:+ uuid_hex.

(** What one call takes from outside the router: the identifier drawn by
    [uuid4] and whether the deadline elapsed before the adapter call
    completed. *)
Record call_env := {
  uuid_hex : string;
  deadline_elapsed : bool;
}.

(** [asyncio.wait_for(aw, timeout)] *)
Definition wait_for (elapsed : bool) (aw : res string) : res string :=
  if elapsed then Raise TimeoutError else aw.

Definition set_pending (r : router) (m : gmap string future) : router :=
  {| adapter_manager := adapter_manager r;
     _pending_messages := m;
     _running := _running r |}.

Definition send_and_wait (E : call_env) (r : router)
    (platform to message_type content conversation_type : string)
  : res string * router :=
  let message_id := create_message_id (uuid_hex E) in
  let r1 := set_pending r (<[message_id := Pending]> (_pending_messages r)) in
  let outcome :=
    wait_for (deadline_elapsed E)
      (route_outgoing r1 platform to message_type content conversation_type) in
  (* the future is the object stored under [message_id] *)
  let r2 :=
    match outcome with
    | Ok result_id =>
        set_pending r1
          (alter (λ _, Result result_id) message_id (_pending_messages r1))
    | Raise e =>
        set_pending r1
          (alter (λ _, Exception e) message_id (_pending_messages r1))
    end in
  (* finally: [self._pending_messages.pop(message_id, None)] *)
  (outcome, set_pending r2 (delete message_id (_pending_messages r2))).

(** One request to [send_and_wait]. *)
Record request := {
  rq_env : call_env;
  rq_platform : string;
  rq_to : string;
  rq_message_type : string;
  rq_content : string;
  rq_conversation_type : string;
}.

Definition serve (r : router) (q : request) : res string * router :=
  send_and_wait (rq_env q) r (rq_platform q) (rq_to q) (rq_message_type q)
    (rq_content q) (rq_conversation_type q).

(** The router after a sequence of calls, each completed before the next
    one starts. *)
Definition serve_all (r : router) (qs : list request) : router :=
  foldl (λ r q, (serve r q).2) r qs.

(** A router whose calls were all made one after another, each completed
    before the next one started. *)
Definition sequential (r : router) : Prop :=
  ∃ am qs, r = serve_all (init am) qs.

End MessageRouter.

(** The Feishu adapter as the router's registry holds it. *)
Definition feishu_adapter (B : Py.builtins) (_client : option Feishu.client)
  : MessageRouter.adapter :=
  {| MessageRouter.send_message := Feishu.send_message B _client |}.


(* ===================================================================== *)
(** * Configuration schemas ([api/schemas/config.py]) *)
(* ===================================================================== *)

Module Schemas.

(** One key of a configuration mapping as pydantic meets it: absent from
    the document, present with a value the field's type accepts (after
    pydantic's coercion), or present with a value the type rejects. *)
Inductive field (A : Type) :=
  | Omitted
  | Given (a : A)
  | Invalid.
Arguments Omitted {A}.
Arguments Given {A} a.
Arguments Invalid {A}.

(** A field without validator.  [None] is a validation error. *)
Definition plain {A} (dflt : A) (f : field A) : option A :=
  match f with
  | Omitted => Some dflt
  | Given a => Some a
  | Invalid => None
  end.

(** A [Literal[...]] field. *)
Definition literal (allowed : list string) (dflt : string) (f : field string)
  : option string :=
  match f with
  | Omitted => Some dflt
  | Given a => if bool_decide (a ∈ allowed) then Some a else None
  | Invalid => None
  end.

(** A field with a [@field_validator].  Pydantic runs the validator on the
    values the document gives; a field that takes its default is not
    validated (none of the models sets [validate_default]). *)
Definition validated {A} (dflt : A) (accepts : A → bool) (f : field A)
  : option A :=
  match f with
  | Omitted => Some dflt
  | Given a => if accepts a then Some a else None
  | Invalid => None
  end.

(** A field holding a nested model, with [default_factory]. *)
Definition nested {R T} (dflt : T) (validate : R → option T) (f : field R)
  : option T :=
  match f with
  | Omitted => Some dflt
  | Given r => validate r
  | Invalid => None
  end.

(** [info.data.get(name)] as a condition: the field validated before, read
    for its truth value; a field that failed validation is not in
    [info.data]. *)
Definition data_flag (v : option bool) : bool := default false v.

(** The body shared by the platform validators:
    [if info.data.get("enabled") and not v: raise ValueError(...)] *)
Definition required_when_enabled (enabled : option bool) (v : string) : bool :=
  negb (data_flag enabled && String.eqb v "").

Module AuthConfig.
Record t := {
  type : string;
  token : string;
  jwt_secret : string;
  jwt_algorithm : string;
  jwt_expire_hours : Z;
}.
Record raw := {
  r_type : field string;
  r_token : field string;
  r_jwt_secret : field string;
  r_jwt_algorithm : field string;
  r_jwt_expire_hours : field Z;
}.
Definition defaults : t :=
  {| type := "fixed_token"; token := ""; jwt_secret := "";
     jwt_algorithm := "HS256"; jwt_expire_hours := 24 |}.
(** [if info.data.get("type") == "fixed_token" and not v: raise] *)
Definition validate_fixed_token (ty : option string) (v : string) : bool :=
  negb (bool_decide (ty = Some "fixed_token") && String.eqb v "").
Definition model_validate (r : raw) : option t :=
  let ty := literal ["fixed_token"; "jwt"] "fixed_token" (r_type r) in
  ty' ← ty;
  tk ← validated "" (validate_fixed_token ty) (r_token r);
  js ← plain "" (r_jwt_secret r);
  ja ← plain "HS256" (r_jwt_algorithm r);
  je ← plain 24 (r_jwt_expire_hours r);
  Some {| type := ty'; token := tk; jwt_secret := js; jwt_algorithm := ja;
          jwt_expire_hours := je |}.
End AuthConfig.

Module LoggingConfig.
Record t := {
  level : string;
  file : string;
  rotation : string;
  retention : string;
}.
Record raw := {
  r_level : field string;
  r_file : field string;
  r_rotation : field string;
  r_retention : field string;
}.
Definition defaults : t :=
  {| level := "INFO"; file := "logs/chatagentcore.log";
     rotation := "10 MB"; retention := "30 days" |}.
Definition model_validate (r : raw) : option t :=
  l ← plain "INFO" (r_level r);
  f ← plain "logs/chatagentcore.log" (r_file r);
  ro ← plain "10 MB" (r_rotation r);
  re ← plain "30 days" (r_retention r);
  Some {| level := l; file := f; rotation := ro; retention := re |}.
End LoggingConfig.

Module FeishuConfig.
Record t := {
  enabled : bool;
  type : string;
  app_id : string;
  app_secret : string;
  verification_token : string;
  encrypt_key : string;
  connection_mode : string;
  domain : string;
}.
Record raw := {
  r_enabled : field bool;
  r_type : field string;
  r_app_id : field string;
  r_app_secret : field string;
  r_verification_token : field string;
  r_encrypt_key : field string;
  r_connection_mode : field string;
  r_domain : field string;
}.
Definition defaults : t :=
  {| enabled := false; type := "app"; app_id := ""; app_secret := "";
     verification_token := ""; encrypt_key := "";
     connection_mode := "websocket"; domain := "feishu" |}.
Definition validate_feishu_keys := required_when_enabled.
Definition model_validate (r : raw) : option t :=
  let en := plain false (r_enabled r) in
  e ← en;
  ty ← plain "app" (r_type r);
  ai ← validated "" (validate_feishu_keys en) (r_app_id r);
  se ← validated "" (validate_feishu_keys en) (r_app_secret r);
  vt ← plain "" (r_verification_token r);
  ek ← plain "" (r_encrypt_key r);
  cm ← literal ["websocket"; "webhook"] "websocket" (r_connection_mode r);
  dm ← literal ["feishu"; "lark"] "feishu" (r_domain r);
  Some {| enabled := e; type := ty; app_id := ai; app_secret := se;
          verification_token := vt; encrypt_key := ek;
          connection_mode := cm; domain := dm |}.
(** The credential fields the platform requires when enabled. *)
Definition credentials (c : t) : list string := [app_id c; app_secret c].
(** The same keys as the document gives them. *)
Definition raw_credentials (r : raw) : list (field string) :=
  [r_app_id r; r_app_secret r].
End FeishuConfig.

Module WecomConfig.
Record t := {
  enabled : bool;
  type : string;
  corp_id : string;
  agent_id : string;
  secret : string;
  token : string;
  encoding_aes_key : string;
}.
Record raw := {
  r_enabled : field bool;
  r_type : field string;
  r_corp_id : field string;
  r_agent_id : field string;
  r_secret : field string;
  r_token : field string;
  r_encoding_aes_key : field string;
}.
Definition defaults : t :=
  {| enabled := false; type := "app"; corp_id := ""; agent_id := "";
     secret := ""; token := ""; encoding_aes_key := "" |}.
Definition validate_wecom_keys := required_when_enabled.
Definition model_validate (r : raw) : option t :=
  let en := plain false (r_enabled r) in
  e ← en;
  ty ← plain "app" (r_type r);
  ci ← validated "" (validate_wecom_keys en) (r_corp_id r);
  ai ← validated "" (validate_wecom_keys en) (r_agent_id r);
  se ← validated "" (validate_wecom_keys en) (r_secret r);
  tk ← validated "" (validate_wecom_keys en) (r_token r);
  ak ← validated "" (validate_wecom_keys en) (r_encoding_aes_key r);
  Some {| enabled := e; type := ty; corp_id := ci; agent_id := ai;
          secret := se; token := tk; encoding_aes_key := ak |}.
Definition credentials (c : t) : list string :=
  [corp_id c; agent_id c; secret c; token c; encoding_aes_key c].
Definition raw_credentials (r : raw) : list (field string) :=
  [r_corp_id r; r_agent_id r; r_secret r; r_token r; r_encoding_aes_key r].
End WecomConfig.

Module DingTalkConfig.
Record t := {
  enabled : bool;
  type : string;
  app_key : string;
  app_secret : string;
  connection_mode : string;
  token : string;
  aes_key : string;
}.
Record raw := {
  r_enabled : field bool;
  r_type : field string;
  r_app_key : field string;
  r_app_secret : field string;
  r_connection_mode : field string;
  r_token : field string;
  r_aes_key : field string;
}.
Definition defaults : t :=
  {| enabled := false; type := "app"; app_key := ""; app_secret := "";
     connection_mode := "websocket"; token := ""; aes_key := "" |}.
Definition validate_dingtalk_keys := required_when_enabled.
Definition model_validate (r : raw) : option t :=
  let en := plain false (r_enabled r) in
  e ← en;
  ty ← plain "app" (r_type r);
  ak ← validated "" (validate_dingtalk_keys en) (r_app_key r);
  se ← validated "" (validate_dingtalk_keys en) (r_app_secret r);
  cm ← literal ["websocket"; "webhook"] "websocket" (r_connection_mode r);
  tk ← plain "" (r_token r);
  ae ← plain "" (r_aes_key r);
  Some {| enabled := e; type := ty; app_key := ak; app_secret := se;
          connection_mode := cm; token := tk; aes_key := ae |}.
Definition credentials (c : t) : list string := [app_key c; app_secret c].
Definition raw_credentials (r : raw) : list (field string) :=
  [r_app_key r; r_app_secret r].
End DingTalkConfig.

Module QQConfig.
Record t := {
  enabled : bool;
  type : string;
  app_id : string;
  token : string;
}.
Record raw := {
  r_enabled : field bool;
  r_type : field string;
  r_app_id : field string;
  r_token : field string;
}.
Definition defaults : t :=
  {| enabled := false; type := "app"; app_id := ""; token := "" |}.
Definition validate_qq_keys := required_when_enabled.
Definition model_validate (r : raw) : option t :=
  let en := plain false (r_enabled r) in
  e ← en;
  ty ← plain "app" (r_type r);
  ai ← validated "" (validate_qq_keys en) (r_app_id r);
  tk ← validated "" (validate_qq_keys en) (r_token r);
  Some {| enabled := e; type := ty; app_id := ai; token := tk |}.
Definition credentials (c : t) : list string := [app_id c; token c].
Definition raw_credentials (r : raw) : list (field string) :=
  [r_app_id r; r_token r].
End QQConfig.

Module PlatformsConfig.
Record t := {
  feishu : FeishuConfig.t;
  wecom : WecomConfig.t;
  dingtalk : DingTalkConfig.t;
  qq : QQConfig.t;
}.
Record raw := {
  r_feishu : field FeishuConfig.raw;
  r_wecom : field WecomConfig.raw;
  r_dingtalk : field DingTalkConfig.raw;
  r_qq : field QQConfig.raw;
}.
Definition defaults : t :=
  {| feishu := FeishuConfig.defaults; wecom := WecomConfig.defaults;
     dingtalk := DingTalkConfig.defaults; qq := QQConfig.defaults |}.
Definition model_validate (r : raw) : option t :=
  f ← nested FeishuConfig.defaults FeishuConfig.model_validate (r_feishu r);
  w ← nested WecomConfig.defaults WecomConfig.model_validate (r_wecom r);
  d ← nested DingTalkConfig.defaults DingTalkConfig.model_validate
        (r_dingtalk r);
  q ← nested QQConfig.defaults QQConfig.model_validate (r_qq r);
  Some {| feishu := f; wecom := w; dingtalk := d; qq := q |}.
End PlatformsConfig.

Module ServerConfig.
Record t := {
  host : string;
  port : Z;
  debug : bool;
}.
Record raw := {
  r_host : field string;
  r_port : field Z;
  r_debug : field bool;
}.
Definition defaults : t := {| host := "0.0.0.0"; port := 8000; debug := false |}.
Definition model_validate (r : raw) : option t :=
  h ← plain "0.0.0.0" (r_host r);
  p ← plain 8000 (r_port r);
  d ← plain false (r_debug r);
  Some {| host := h; port := p; debug := d |}.
End ServerConfig.

Module Settings.
Record t := {
  server : ServerConfig.t;
  auth : AuthConfig.t;
  logging : LoggingConfig.t;
  platforms : PlatformsConfig.t;
  config_file : string;
}.
(** A mapping read from the document.  [r_extra] tells whether it has a
    top-level key that is no field of [Settings]: a [BaseSettings] model
    forbids extra keys. *)
Record raw := {
  r_server : field ServerConfig.raw;
  r_auth : field AuthConfig.raw;
  r_logging : field LoggingConfig.raw;
  r_platforms : field PlatformsConfig.raw;
  r_config_file : field string;
  r_extra : bool;
}.
(** [Settings()].  Here and in [model_validate] nothing is set in the
    process environment or in [.env], the other sources of a
    [BaseSettings] model. *)
Definition defaults : t :=
  {| server := ServerConfig.defaults; auth := AuthConfig.defaults;
     logging := LoggingConfig.defaults;
     platforms := PlatformsConfig.defaults;
     config_file := "config/config.yaml" |}.
(** The empty mapping [{}] *)
Definition empty : raw :=
  {| r_server := Omitted; r_auth := Omitted; r_logging := Omitted;
     r_platforms := Omitted; r_config_file := Omitted; r_extra := false |}.
Definition model_validate (r : raw) : res t :=
  let v : option t :=
    s ← nested ServerConfig.defaults ServerConfig.model_validate (r_server r);
    a ← nested AuthConfig.defaults AuthConfig.model_validate (r_auth r);
    l ← nested LoggingConfig.defaults LoggingConfig.model_validate
          (r_logging r);
    p ← nested PlatformsConfig.defaults PlatformsConfig.model_validate
          (r_platforms r);
    c ← plain "config/config.yaml" (r_config_file r);
    if r_extra r then None
    else Some {| server := s; auth := a; logging := l; platforms := p;
                 config_file := c |} in
  match v with
  | Some s => Ok s
  | None => Raise ValidationError
  end.
End Settings.

End Schemas.

(* ===================================================================== *)
(** * The configuration manager ([core/config_manager.py]) *)
(* ===================================================================== *)

Module ConfigManager.
Import Schemas.

(** What [load] finds at [config_path]. *)
Inductive document :=
  | Absent                         (* the path does not exist *)
  | Unreadable                     (* [open] or [yaml.safe_load] raises *)
  | Blank                          (* parses to a falsy value: [or {}] *)
  | Scalar                         (* parses to a truthy non-mapping *)
  | Mapping (raw : Settings.raw).

(** [self._raw_config] *)
Inductive raw_config :=
  | RawMapping (raw : Settings.raw)
  | RawOther.

Definition callback := Settings.t → res unit.

Record config_manager := {
  version : Z;
  _config : option Settings.t;
  _raw_config : raw_config;
  _callbacks : list callback;
}.

(** [ConfigManager.__init__] *)
Definition init : config_manager :=
  {| version := 0; _config := None; _raw_config := RawMapping Settings.empty;
     _callbacks := [] |}.

Definition set_config (cm : config_manager) (c : Settings.t) : config_manager :=
  {| version := version cm; _config := Some c;
     _raw_config := _raw_config cm; _callbacks := _callbacks cm |}.
Definition set_raw_config (cm : config_manager) (r : raw_config)
  : config_manager :=
  {| version := version cm; _config := _config cm;
     _raw_config := r; _callbacks := _callbacks cm |}.
Definition set_version (cm : config_manager) (v : Z) : config_manager :=
  {| version := v; _config := _config cm;
     _raw_config := _raw_config cm; _callbacks := _callbacks cm |}.

Definition _raw_config_to_settings (raw : raw_config) : res Settings.t :=
  match raw with
  | RawMapping r => Settings.model_validate r
  | RawOther => Raise ValidationError
  end.

(** [_validate_config] only logs: the names of the enabled platforms and
    the warnings it writes.  It raises nothing. *)
Definition _validate_config (config : Settings.t) : list string * list string :=
  let p := Settings.platforms config in
  let enabled_platforms : list string :=
    ((if FeishuConfig.enabled (PlatformsConfig.feishu p) then ["feishu"] else [])
    ++ (if WecomConfig.enabled (PlatformsConfig.wecom p) then ["wecom"] else [])
    ++ (if DingTalkConfig.enabled (PlatformsConfig.dingtalk p)
        then ["dingtalk"] else [])
    ++ (if QQConfig.enabled (PlatformsConfig.qq p) then ["qq"] else []))%list in
  let a := Settings.auth config in
  let warnings : list string :=
    ((match enabled_platforms with [] => ["No platform enabled"] | _ => [] end)
    ++ (if String.eqb (AuthConfig.type a) "fixed_token"
           && String.eqb (AuthConfig.token a) ""
        then ["auth.token is required when auth.type is fixed_token"] else [])
    ++ (if String.eqb (AuthConfig.type a) "jwt"
           && String.eqb (AuthConfig.jwt_secret a) ""
        then ["auth.jwt_secret is required when auth.type is jwt"] else []))%list in
  (enabled_platforms, warnings).

Definition load (cm : config_manager) (doc : document)
  : res Settings.t * config_manager :=
  match doc with
  | Absent =>
      (* warning: config file not found, using defaults *)
      let cm1 := set_config cm Settings.defaults in
      let cm2 := set_raw_config cm1 (RawMapping Settings.empty) in
      (Ok Settings.defaults, cm2)
  | Unreadable => (Raise YAMLError, cm)
  | Blank | Scalar | Mapping _ =>
      let raw :=
        match doc with
        | Mapping r => RawMapping r
        | Scalar => RawOther
        | _ => RawMapping Settings.empty
        end in
      let cm1 := set_raw_config cm raw in
      match _raw_config_to_settings raw with
      | Raise e => (Raise e, cm1)
      | Ok c =>
          let cm2 := set_config cm1 c in
          let _ := _validate_config c in
          let cm3 := set_version cm2 (version cm2 + 1) in
          (Ok c, cm3)
      end
  end.

(** [reload]: the third component lists what each registered callback
    did; a callback that raises is logged and the next one runs. *)
Definition reload (cm : config_manager) (doc : document)
  : res Settings.t * config_manager * list (res unit) :=
  match load cm doc with
  | (Raise e, cm') => (Raise e, cm', [])
  | (Ok c, cm') => (Ok c, cm', map (λ cb : callback, cb c) (_callbacks cm'))
  end.

Definition on_change (cm : config_manager) (cb : callback) : config_manager :=
  {| version := version cm; _config := _config cm;
     _raw_config := _raw_config cm; _callbacks := _callbacks cm ++ [cb] |}.

(** A load or a hot reload, as one step of the manager. *)
Inductive op :=
  | Load (doc : document)
  | Reload (doc : document).

Definition step (cm : config_manager) (o : op) : res Settings.t * config_manager :=
  match o with
  | Load doc => load cm doc
  | Reload doc => let '(r, cm', _) := reload cm doc in (r, cm')
  end.


(** The [config] property *)
Definition config (cm : config_manager) : res Settings.t :=
  match _config cm with
  | Some c => Ok c
  | None => Raise (RuntimeError "Config not loaded. Call load() first.")
  end.

(** What one turn of [_watch_loop] finds after its sleep: the path is
    gone, or it has a modification time and [reload] finds [doc].  The
    path is taken to stay what [exists] found it to be until [stat] has
    read it. *)
Inductive tick :=
  | Gone
  | Seen (mtime : float) (doc : document).

(** The [while True] loop of [_watch_loop], for the turns that happen
    before the task is cancelled. *)
Fixpoint watch_ticks (last_mtime : float) (cm : config_manager)
    (ticks : list tick) : config_manager :=
  match ticks with
  | [] => cm
  | Gone :: _ => (* warning, break *) cm
  | Seen current_mtime doc :: rest =>
      if negb (PrimFloat.eqb current_mtime last_mtime) then
        match reload cm doc with
        | (Ok _, cm', _) => watch_ticks current_mtime cm' rest
        | (Raise _, cm', _) => (* logged *) watch_ticks last_mtime cm' rest
        end
      else watch_ticks last_mtime cm rest
  end.

(** [_watch_loop]: [start] is the modification time read before the loop,
    [None] when the path does not exist then. *)
Definition _watch_loop (start : option float) (cm : config_manager)
    (ticks : list tick) : config_manager :=
  match start with
  | None => cm
  | Some last_mtime => watch_ticks last_mtime cm ticks
  end.

(** The configuration a document validates to. *)
Definition settings_of (doc : document) : res Settings.t := (load init doc).1.

(** The value the document gives under [auth.token]. *)
Definition document_token (doc : document) : field string :=
  match doc with
  | Mapping r =>
      match Settings.r_auth r with
      | Given a => AuthConfig.r_token a
      | Omitted => Omitted
      | Invalid => Invalid
      end
  | _ => Omitted
  end.

(** The mapping the document gives under [platforms]. *)
Definition document_platforms (doc : document) : option PlatformsConfig.raw :=
  match doc with
  | Mapping r =>
      match Settings.r_platforms r with
      | Given p => Some p
      | _ => None
      end
  | _ => None
  end.

End ConfigManager.

(* ===================================================================== *)
(** * The connection manager ([api/websocket/manager.py]) *)
(* ===================================================================== *)

Module ConnectionManager.
Import Py.

(** A [WebSocket] object is known by its identity, [id(websocket)]: the
    dictionaries of the manager hash it by identity. *)
Abbreviation WebSocket := N (only parsing).

(** The value of [self._connections[websocket]] *)
Record conn_info := {
  user_id : string;
  authenticated : bool;
  last_seen : float;
}.

Inductive ws_type := TMessage | TEvent | TError | TAuthAck | TPing | TPong.

(** [api/models/message.py], [WSMessage] *)
Record WSMessage := {
  type : ws_type;
  channel : string;
  timestamp : Z;
  payload : option pyval;
}.

Record hub := {
  _connections : gmap N conn_info;
  _subscriptions : gmap string (gmap string (gset N));
  _valid_tokens : gset string;
}.

(** [ConnectionManager.__init__] *)
Definition init : hub :=
  {| _connections := ∅; _subscriptions := ∅;
     _valid_tokens := {[ "your_api_token" ]} |}.

(** What the manager does to the sockets. *)
Inductive event :=
  | Accepted (ws : WebSocket)
  | Sent (ws : WebSocket) (frame : WSMessage)        (* [send_json] returned *)
  | SendFailed (ws : WebSocket) (frame : WSMessage)  (* [send_json] raised *)
  | Closed (ws : WebSocket) (code : Z).              (* [close] was called *)

(** What one operation takes from outside the manager: the clock and
    whether the transport of a socket accepts a frame or a close. *)
Record world := {
  time : float;                  (* [time.time()] *)
  int_time : Z;                  (* [int(time.time())] *)
  send_ok : WebSocket → bool;
  close_ok : WebSocket → bool;
}.

(** ** Computations on the hub: state, exceptions and socket events

    An operation of the manager is one uninterrupted run on the hub: what
    other coroutines do to the manager while an operation awaits a socket
    is not part of the embedding. *)

Definition M (A : Type) : Type := hub → res A * hub * list event.

Definition ret {A} (a : A) : M A := λ h, (Ok a, h, []).
Definition raise {A} (e : exn) : M A := λ h, (Raise e, h, []).
Definition bind {A B} (m : M A) (k : A → M B) : M B := λ h,
  match m h with
  | (Ok a, h1, t1) =>
      match k a h1 with
      | (r, h2, t2) => (r, h2, t1 ++ t2)
      end
  | (Raise e, h1, t1) => (Raise e, h1, t1)
  end.
(** [try: m  except Exception as e: handler e] *)
Definition try_except {A} (m : M A) (handler : exn → M A) : M A := λ h,
  match m h with
  | (Ok a, h1, t1) => (Ok a, h1, t1)
  | (Raise e, h1, t1) =>
      match handler e h1 with
      | (r, h2, t2) => (r, h2, t1 ++ t2)
      end
  end.
Definition get_hub : M hub := λ h, (Ok h, h, []).
Definition modify (f : hub → hub) : M unit := λ h, (Ok tt, f h, []).
Definition emit (ev : event) : M unit := λ h, (Ok tt, h, [ev]).

Notation "'let!' x ':=' m 'in' k" := (bind m (λ x, k))
  (at level 10, x name, m at level 100, k at level 200).
Notation "'let!' ' p ':=' m 'in' k" :=
  (bind m (λ x, match x with p => k end))
  (at level 10, p pattern, m at level 100, k at level 200).

(** [for x in xs: acc = body acc x] *)
Fixpoint for_fold {A X} (body : A → X → M A) (acc : A) (xs : list X) : M A :=
  match xs with
  | [] => ret acc
  | x :: xs' => let! acc' := body acc x in for_fold body acc' xs'
  end.

Definition for_each {X} (xs : list X) (body : X → M unit) : M unit :=
  for_fold (λ _ x, body x) tt xs.

(** ** State updates *)

Definition set_connections (f : gmap N conn_info → gmap N conn_info)
    (h : hub) : hub :=
  {| _connections := f (_connections h);
     _subscriptions := _subscriptions h;
     _valid_tokens := _valid_tokens h |}.

Definition set_subscriptions
    (f : gmap string (gmap string (gset N)) →
         gmap string (gmap string (gset N)))
    (h : hub) : hub :=
  {| _connections := _connections h;
     _subscriptions := f (_subscriptions h);
     _valid_tokens := _valid_tokens h |}.

Definition set_valid_tokens (tokens : list string) (h : hub) : hub :=
  {| _connections := _connections h;
     _subscriptions := _subscriptions h;
     _valid_tokens := list_to_set tokens |}.

(** [list(d.keys())], in the order of the finite map.  Python goes through
    a dictionary in insertion order; nothing below depends on the order. *)
Definition keys {K V} `{Countable K} (d : gmap K V) : list K :=
  (map_to_list d).*1.

(** ** The operations *)

(** [f"ws_user_{id(websocket)}"] *)
Definition mk_user_id (ws : WebSocket) : string := "ws_user_" +:+ pretty ws.

Definition connect (W : world) (ws : WebSocket) : M string :=
  let! _ := emit (Accepted ws) in
  let user_id := mk_user_id ws in
  let! _ := modify (set_connections
              <[ws := {| user_id := user_id; authenticated := false;
                         last_seen := time W |}]>) in
  let! _ := modify (set_subscriptions <[user_id := ∅]>) in
  ret user_id.

Definition unsubscribe (ws : WebSocket) (channel : string) : M bool :=
  let! h := get_hub in
  match _connections h !! ws with
  | None => ret false
  | Some info =>
      let uid := user_id info in
      let chans := default ∅ (_subscriptions h !! uid) in
      match chans !! channel with
      | Some s =>
          let s' := s ∖ {[ ws ]} in
          let chans' :=
            if decide (s' = ∅) then delete channel chans
            else <[channel := s']> chans in
          let! _ := modify (set_subscriptions <[uid := chans']>) in
          ret true
      | None => ret false
      end
  end.

Definition disconnect (ws : WebSocket) : M unit :=
  let! h := get_hub in
  match _connections h !! ws with
  | None => ret tt
  | Some info =>
      let uid := user_id info in
      let! _ :=
        match _subscriptions h !! uid with
        | Some chans =>
            let! _ := for_each (keys chans)
                        (λ channel, let! _ := unsubscribe ws channel in ret tt) in
            modify (set_subscriptions (delete uid))
        | None => ret tt
        end in
      modify (set_connections (delete ws))
  end.

Definition update_last_seen (W : world) (ws : WebSocket) : M unit :=
  modify (set_connections
            (alter (λ info, {| user_id := user_id info;
                               authenticated := authenticated info;
                               last_seen := time W |}) ws)).

(** [websocket.close(code=code)] *)
Definition websocket_close (W : world) (ws : WebSocket) (code : Z) : M unit :=
  let! _ := emit (Closed ws code) in
  if close_ok W ws then ret tt
  else raise (TransportError "close").

(** [now - info.get("last_seen", 0) > timeout] *)
Definition is_stale (now timeout : float) (info : conn_info) : bool :=
  PrimFloat.ltb timeout (PrimFloat.sub now (last_seen info)).

(** The list [stale] that the first loop of [prune_stale_connections]
    collects. *)
Definition stale_sockets (now timeout : float) (h : hub) : list N :=
  (filter (λ p, is_stale now timeout p.2 = true)
     (map_to_list (_connections h))).*1.

Definition prune_stale_connections (W : world) (timeout : float) : M Z :=
  let! h := get_hub in
  let now := time W in
  let stale := stale_sockets now timeout h in
  let! _ := for_each stale (λ ws,
              let! _ := try_except (websocket_close W ws 1000) (λ _, ret tt) in
              disconnect ws) in
  ret (Z.of_nat (length stale)).

(** [data.model_dump()] with the timestamp filled in when it is missing *)
Definition dump (W : world) (data : WSMessage) : WSMessage :=
  if timestamp data =? 0 then
    {| type := type data; channel := channel data;
       timestamp := int_time W; payload := payload data |}
  else data.

(** [websocket.send_json(frame)] *)
Definition websocket_send_json (W : world) (ws : WebSocket)
    (frame : WSMessage) : M unit :=
  if send_ok W ws then emit (Sent ws frame)
  else
    let! _ := emit (SendFailed ws frame) in
    raise (TransportError "send_json").

Definition send_json (W : world) (ws : WebSocket) (data : WSMessage) : M unit :=
  try_except
    (websocket_send_json W ws (dump W data))
    (λ _, (* logged *) disconnect ws).

(** One turn of either loop of [broadcast]:
    [try: await self.send_json(websocket, data); sent_count += 1
     except Exception: disconnected.append(websocket)] *)
Definition deliver (W : world) (data : WSMessage)
    (acc : Z * list N) (ws : WebSocket) : M (Z * list N) :=
  try_except
    (let! _ := send_json W ws data in ret (acc.1 + 1, acc.2))
    (λ _, ret (acc.1, acc.2 ++ [ws])).

(** The inner dictionaries that [list(self._subscriptions.items())] yields
    are the live objects, which a disconnect during the loop can change.
    A socket is disconnected in the loop only after a failed send to it,
    and in a hub that satisfies [hub_wf] below a socket occurs in the
    dictionary of its own user only, which the loop has read by then; so
    the loop is written over the items as they are when it starts. *)
Definition broadcast (W : world) (data : WSMessage) (channel : string) : M Z :=
  let! h := get_hub in
  let! '(sent_count, disconnected) :=
    if String.eqb channel "*" then
      for_fold (deliver W data) (0, []) (keys (_connections h))
    else
      for_fold (λ acc item,
          match (item.2 : gmap string (gset N)) !! channel with
          | Some s => for_fold (deliver W data) acc (elements s)
          | None => ret acc
          end) (0, []) (map_to_list (_subscriptions h)) in
  let! _ := for_each disconnected disconnect in
  ret sent_count.

Definition subscribe (ws : WebSocket) (channel : string) : M bool :=
  let! h := get_hub in
  match _connections h !! ws with
  | None => ret false
  | Some info =>
      let uid := user_id info in
      match _subscriptions h !! uid with
      | None => raise (KeyError uid)
      | Some chans =>
          let s := default ∅ (chans !! channel) in
          let! _ := modify (set_subscriptions
                      <[uid := <[channel := s ∪ {[ ws ]}]> chans]>) in
          ret true
      end
  end.

Definition is_authenticated (h : hub) (ws : WebSocket) : bool :=
  match _connections h !! ws with
  | Some info => authenticated info
  | None => false
  end.

Definition set_authenticated (ws : WebSocket) (a : bool) : M unit :=
  modify (set_connections
            (alter (λ info, {| user_id := user_id info;
                               authenticated := a;
                               last_seen := last_seen info |}) ws)).

Definition validate_token (h : hub) (token : string) : bool :=
  bool_decide (token ∈ _valid_tokens h).

Definition get_connection_id (h : hub) (ws : WebSocket) : option string :=
  user_id <$> _connections h !! ws.

Definition opt_str (o : option string) : pyval :=
  match o with
  | Some s => PStr s
  | None => PNone
  end.

Definition auth_ack (W : world) (uid : option string) : WSMessage :=
  {| type := TAuthAck; channel := "system"; timestamp := int_time W;
     payload := Some (PDict [("user_id", opt_str uid);
                             ("status", PStr "authenticated")]) |}.

Definition auth_error (W : world) : WSMessage :=
  {| type := TError; channel := "system"; timestamp := int_time W;
     payload := Some (PDict [("error", PStr "Invalid token");
                             ("code", PInt 401)]) |}.

Definition handle_auth (W : world) (ws : WebSocket) (token : string) : M bool :=
  let! h := get_hub in
  if validate_token h token then
    let! _ := set_authenticated ws true in
    let! h' := get_hub in
    let user_id := get_connection_id h' ws in
    let! _ := send_json W ws (auth_ack W user_id) in
    ret true
  else
    let! _ := send_json W ws (auth_error W) in
    ret false.

Definition subscribed_ack (W : world) (channels : list string) : WSMessage :=
  {| type := TEvent; channel := "system"; timestamp := int_time W;
     payload := Some (PDict [("event", PStr "subscribed");
                             ("channels", PList (PStr <$> channels))]) |}.

Definition handle_subscribe (W : world) (ws : WebSocket)
    (channels : list string) : M unit :=
  let! _ := for_each channels
              (λ channel, let! _ := subscribe ws channel in ret tt) in
  send_json W ws (subscribed_ack W channels).

Definition get_connections_count (h : hub) : nat := size (_connections h).

(** ** Reading a run *)

Definition result {A} (r : res A * hub * list event) : res A := r.1.1.
Definition final {A} (r : res A * hub * list event) : hub := r.1.2.
Definition trace {A} (r : res A * hub * list event) : list event := r.2.

(** The sockets a run called [send_json] on, in order. *)
Definition attempted (t : list event) : list N :=
  omap (λ ev, match ev with
              | Sent ws _ | SendFailed ws _ => Some ws
              | _ => None
              end) t.

(** The sockets a frame was delivered to. *)
Definition delivered (t : list event) : list N :=
  omap (λ ev, match ev with Sent ws _ => Some ws | _ => None end) t.

(** The sockets a run called [close] on. *)
Definition closed (t : list event) : list N :=
  omap (λ ev, match ev with Closed ws _ => Some ws | _ => None end) t.

(** [ws] is in the subscriber set of [channel]. *)
Definition subscribed (h : hub) (channel : string) (ws : WebSocket) : Prop :=
  ∃ uid chans s,
    _subscriptions h !! uid = Some chans ∧ chans !! channel = Some s ∧ ws ∈ s.

(** The shape of the two dictionaries that [connect], [subscribe],
    [unsubscribe] and [disconnect] keep: a connection's record carries the
    identity derived from its socket and has a subscription dictionary; a
    subscription dictionary belongs to a live connection and its sets hold
    that connection's socket only. *)
Record hub_wf (h : hub) : Prop := {
  wf_user_id : ∀ ws info,
    _connections h !! ws = Some info → user_id info = mk_user_id ws;
  wf_has_subs : ∀ ws info,
    _connections h !! ws = Some info →
    is_Some (_subscriptions h !! user_id info);
  wf_owner : ∀ uid chans,
    _subscriptions h !! uid = Some chans →
    ∃ ws, uid = mk_user_id ws ∧ is_Some (_connections h !! ws);
  wf_members : ∀ uid chans channel s ws,
    _subscriptions h !! uid = Some chans → chans !! channel = Some s →
    ws ∈ s → mk_user_id ws = uid;
}.

(** ** What the operations amount to *)

(** The hub once [ws] is disconnected: its record and the subscription
    dictionary of its user are gone. *)
Definition disconnect_state (h : hub) (ws : N) : hub :=
  match _connections h !! ws with
  | None => h
  | Some info =>
      {| _connections := delete ws (_connections h);
         _subscriptions := delete (user_id info) (_subscriptions h);
         _valid_tokens := _valid_tokens h |}
  end.

(** The frame [send_json] writes and the event it leaves. *)
Definition send_event (W : world) (data : WSMessage) (ws : N) : event :=
  if send_ok W ws then Sent ws (dump W data) else SendFailed ws (dump W data).

(** The hub after a send to [ws]: unchanged when the transport took the
    frame, without [ws] when it did not. *)
Definition drop_failed (W : world) (h : hub) (ws : N) : hub :=
  if send_ok W ws then h else disconnect_state h ws.

(** The sockets one item of [self._subscriptions] holds for [channel]. *)
Definition item_sockets (channel : string)
    (item : string * gmap string (gset N)) : list N :=
  match item.2 !! channel with
  | Some s => elements s
  | None => []
  end.

(** The sockets a broadcast on [channel] goes through, in order. *)
Definition targets (h : hub) (channel : string) : list N :=
  if String.eqb channel "*" then keys (_connections h)
  else map_to_list (_subscriptions h) ≫= item_sockets channel.

(** The record of a connection once [set_authenticated(ws, True)] ran. *)
Definition mark_authenticated (info : conn_info) : conn_info :=
  {| user_id := user_id info; authenticated := true;
     last_seen := last_seen info |}.

(** The hub after [connect]. *)
Definition connect_state (W : world) (h : hub) (ws : N) : hub :=
  set_subscriptions <[mk_user_id ws := ∅]>
    (set_connections
       <[ws := {| user_id := mk_user_id ws; authenticated := false;
                  last_seen := time W |}]> h).

(** The hub after [subscribe] has added [ws] to [channel]. *)
Definition subscribe_state (h : hub) (ws : N) (channel : string) : hub :=
  match _connections h !! ws with
  | Some info =>
      match _subscriptions h !! user_id info with
      | Some chans =>
          set_subscriptions
            <[user_id info :=
                <[channel := default ∅ (chans !! channel) ∪ {[ ws ]}]> chans]> h
      | None => h
      end
  | None => h
  end.

(** A change of a connection's record that keeps its [user_id]. *)
Definition keeps_user_id (f : conn_info → conn_info) : Prop :=
  ∀ info, user_id (f info) = user_id info.

(** ** Queries *)

Definition get_subscribers_count (h : hub) (channel : string) : nat :=
  foldl (λ count (item : string * gmap string (gset N)),
      match item.2 !! channel with
      | Some s => (count + size s)%nat
      | None =>
          match item.2 !! "*" with
          | Some s => (count + size s)%nat
          | None => count
          end
      end) 0%nat (map_to_list (_subscriptions h)).

(** What one item of [self._subscriptions] adds to
    [get_subscribers_count]. *)
Definition item_count (channel : string)
    (item : string * gmap string (gset N)) : nat :=
  match item.2 !! channel with
  | Some s => size s
  | None => match item.2 !! "*" with Some s => size s | None => 0%nat end
  end.

(** [get_connection_info]: the first record with the given [user_id] *)
Definition get_connection_info (h : hub) (uid : string) : option conn_info :=
  snd <$> head (filter (λ p : N * conn_info, user_id p.2 = uid)
                  (map_to_list (_connections h))).

(** The hub after [unsubscribe] has taken [ws] off [channel]. *)
Definition unsubscribe_state (h : hub) (ws : N) (channel : string) : hub :=
  match _connections h !! ws with
  | Some info =>
      let chans := default ∅ (_subscriptions h !! user_id info) in
      match chans !! channel with
      | Some s =>
          set_subscriptions
            <[user_id info :=
                if decide (s ∖ {[ ws ]} = ∅) then delete channel chans
                else <[channel := s ∖ {[ ws ]}]> chans]> h
      | None => h
      end
  | None => h
  end.

(** The record of [ws], if it has one, was last seen at the clock of [W]. *)
Definition refreshed (W : world) (ws : N) (h : hub) : Prop :=
  ∀ info, _connections h !! ws = Some info → last_seen info = time W.

End ConnectionManager.

(* ===================================================================== *)
(** * The [/ws/events] endpoint ([api/main.py], [websocket_events]) *)
(* ===================================================================== *)

Module Endpoint.
Import Py ConnectionManager.

(** How one turn of the receive loop ends: with the next turn, or with the
    [return] that leaves the endpoint. *)
Inductive control := Continue | Return.

Definition lift {A} (r : res A) : M A :=
  match r with
  | Ok a => ret a
  | Raise e => raise e
  end.

(** [WSAuthMessage] built from the keys of [data]: [token] is required
    and is a string. *)
Definition WSAuthMessage (data : pyval) : res string :=
  match data with
  | PDict kv =>
      match assoc "token" kv with
      | Some (PStr t) => Ok t
      | _ => Raise ValidationError
      end
  | _ => Raise TypeError
  end.

Definition as_str (v : pyval) : option string :=
  match v with
  | PStr s => Some s
  | _ => None
  end.

(** [WSSubscribeMessage] built from the keys of [data]: [channels] is
    required and is a list of strings. *)
Definition WSSubscribeMessage (data : pyval) : res (list string) :=
  match data with
  | PDict kv =>
      match assoc "channels" kv with
      | Some (PList l) =>
          match mapM as_str l with
          | Some cs => Ok cs
          | None => Raise ValidationError
          end
      | _ => Raise ValidationError
      end
  | _ => Raise TypeError
  end.

Definition pong (W : world) (ping_timestamp : pyval) : WSMessage :=
  {| type := TPong; channel := "system"; timestamp := int_time W;
     payload := Some (PDict [("ping_timestamp", ping_timestamp)]) |}.

(** The body of the [while True] loop for one received frame. *)
Definition handle_frame (W : world) (ws : WebSocket) (data : pyval) : M control :=
  let! _ := update_last_seen W ws in
  let! msg_type := lift (get data "type" PNone) in
  if eq_str msg_type "auth" then
    let! token := lift (WSAuthMessage data) in
    let! _ := handle_auth W ws token in
    ret Continue
  else if eq_str msg_type "ping" then
    let! ts := lift (get data "timestamp" PNone) in
    let! _ := send_json W ws (pong W ts) in
    ret Continue
  else if eq_str msg_type "subscribe" then
    let! h := get_hub in
    if negb (is_authenticated h ws) then
      let! _ := websocket_close W ws 4008 in
      ret Return
    else
      let! channels := lift (WSSubscribeMessage data) in
      let! _ := handle_subscribe W ws channels in
      ret Continue
  else (* unknown message type: logged *) ret Continue.

(** The loop over the frames the client sends, each with the clock and
    transport of its moment; when they are used up [receive_json] raises
    [WebSocketDisconnect]. *)
Fixpoint receive_loop (ws : WebSocket) (frames : list (world * pyval)) : M unit :=
  match frames with
  | [] => raise (TransportError "WebSocketDisconnect")
  | (W, data) :: rest =>
      let! c := handle_frame W ws data in
      match c with
      | Continue => receive_loop ws rest
      | Return => ret tt
      end
  end.

Definition websocket_events (W0 : world) (ws : WebSocket)
    (frames : list (world * pyval)) : M unit :=
  let! user_id := connect W0 ws in
  let! _ := try_except (receive_loop ws frames) (λ _, (* logged *) ret tt) in
  (* finally *)
  disconnect ws.

(** Every member of a subscriber set is an authenticated connection. *)
Definition subscribers_authenticated (h : hub) : Prop :=
  ∀ channel ws, subscribed h channel ws → is_authenticated h ws = true.

(** What holds of the hub between any two operations. *)
Record hub_inv (h : hub) : Prop := {
  inv_wf : hub_wf h;
  inv_auth : subscribers_authenticated h;
}.

(** ** Computations and properties of the hub

    [triple P m Q E]: run from a hub that satisfies [P], the computation
    [m] ends in a hub that satisfies [Q a] when it returns [a] and [E] when
    it raises. *)
Definition triple {A} (P : hub → Prop) (m : M A) (Q : A → hub → Prop)
    (E : hub → Prop) : Prop :=
  ∀ h, P h →
    match m h with
    | (Ok a, h', _) => Q a h'
    | (Raise _, h', _) => E h'
    end.

(** The hubs the application can be in: the operations it performs on the
    manager are the endpoint's, for any socket and any frames, a broadcast
    from the message handler, the pruning task and the token update of a
    configuration reload. *)
Inductive reachable : hub → Prop :=
  | reach_init : reachable init
  | reach_connect W ws h :
      reachable h → reachable (final (connect W ws h))
  | reach_frame W ws data h :
      reachable h → reachable (final (handle_frame W ws data h))
  | reach_disconnect ws h :
      reachable h → reachable (final (disconnect ws h))
  | reach_broadcast W data channel h :
      reachable h → reachable (final (broadcast W data channel h))
  | reach_prune W timeout h :
      reachable h → reachable (final (prune_stale_connections W timeout h))
  | reach_tokens tokens h :
      reachable h → reachable (set_valid_tokens tokens h).

End Endpoint.

(* ===================================================================== *)
(** * Application start ([api/main.py], [lifespan]) *)
(* ===================================================================== *)

Module Lifespan.
Import Schemas ConnectionManager.

(** [if config_manager.config.auth.token:
       ws_manager.set_valid_tokens([config_manager.config.auth.token])] *)
Definition sync_valid_tokens (c : Settings.t) (h : hub) : hub :=
  if negb (String.eqb (AuthConfig.token (Settings.auth c)) "")
  then set_valid_tokens [AuthConfig.token (Settings.auth c)] h
  else h.

(** The manager as [lifespan] leaves it for the first connection. *)
Definition started (c : Settings.t) : hub := sync_valid_tokens c init.

(** The start of [lifespan] as far as the connection manager goes:
    [config_manager.load()] on a fresh configuration manager, then the token
    of [config_manager.config] is handed to the fresh connection manager.
    An error of [load] ends the start. *)
Definition startup (doc : ConfigManager.document) : res hub :=
  let '(r, cm) := ConfigManager.load ConfigManager.init doc in
  let? _ := r in
  let? c := ConfigManager.config cm in
  Ok (sync_valid_tokens c init).

(** The platforms [lifespan] hands to [load_all]: those whose
    configuration has [enabled] set, in the order it goes through them. *)
Definition platforms_config (c : Settings.t) : list string :=
  let p := Settings.platforms c in
  (if FeishuConfig.enabled (PlatformsConfig.feishu p) then ["feishu"] else [])
  ++ (if WecomConfig.enabled (PlatformsConfig.wecom p) then ["wecom"] else [])
  ++ (if DingTalkConfig.enabled (PlatformsConfig.dingtalk p)
      then ["dingtalk"] else [])
  ++ (if QQConfig.enabled (PlatformsConfig.qq p) then ["qq"] else []).

End Lifespan.

(* ===================================================================== *)
(** * Sample inputs *)
(* ===================================================================== *)

Module Samples.
Import Py.

(** ** Inbound events *)

Definition R0 : runtime :=
  {| rt_builtins :=
       {| repr := λ _, "<object>";
          json_loads := λ _, None;
          to_int := λ v, match v with PInt n => Some n | _ => None end |};
     rt_now_ms := 1700000000000;
     rt_now_s := 1700000000 |}.

Definition feishu_event (message : list (string * pyval)) : pyval :=
  PDict [("header", PDict [("create_time", PInt 1700000000)]);
         ("event",
          PDict [("message",
                  PDict ([("message_id", PStr "om_1");
                          ("chat_id", PStr "oc_42");
                          ("message_type", PStr "text");
                          ("content", PStr "hello")] ++ message));
                 ("sender",
                  PDict [("sender_id", PDict [("open_id", PStr "ou_7")]);
                         ("sender_type", PStr "user")])])].

(** No [chat_type] in the message: the adapter takes it to be [user]. *)
Definition feishu_user_event : pyval := feishu_event [].
Definition feishu_group_event : pyval :=
  feishu_event [("chat_type", PStr "group")].
(** The [chat_type] Feishu gives a one-to-one chat. *)
Definition feishu_p2p_event : pyval :=
  feishu_event [("chat_type", PStr "p2p")].

(** ** Adapters and requests *)

(** An adapter that answers with the receiver's id, as the Feishu adapter
    does, and one whose transport fails. *)
Definition echo_adapter : MessageRouter.adapter :=
  {| MessageRouter.send_message := λ to _ _ _, Ok to |}.
Definition down_adapter : MessageRouter.adapter :=
  {| MessageRouter.send_message := λ _ _ _ _,
       Raise (TransportError "platform unreachable") |}.

Definition two_adapters : MessageRouter.AdapterManager :=
  {| MessageRouter.live :=
       <["feishu" := echo_adapter]> (<["dingtalk" := down_adapter]> ∅) |}.

Definition call (hex : string) (elapsed : bool) : MessageRouter.call_env :=
  {| MessageRouter.uuid_hex := hex; MessageRouter.deadline_elapsed := elapsed |}.

Definition request_to (platform hex : string) (elapsed : bool)
  : MessageRouter.request :=
  {| MessageRouter.rq_env := call hex elapsed;
     MessageRouter.rq_platform := platform;
     MessageRouter.rq_to := "ou_7";
     MessageRouter.rq_message_type := "text";
     MessageRouter.rq_content := "hello";
     MessageRouter.rq_conversation_type := "user" |}.

(** The router after three calls made one after another. *)
Definition served : MessageRouter.router :=
  MessageRouter.serve_all (MessageRouter.init two_adapters)
    [request_to "feishu" "00aa" false;
     request_to "dingtalk" "00bb" false;
     request_to "feishu" "00cc" true].

(** ** Configuration documents *)

Import Schemas.

(** [platforms: {feishu: {enabled: true}}] *)
Definition feishu_enabled_only : Settings.raw :=
  {| Settings.r_server := Omitted;
     Settings.r_auth := Omitted;
     Settings.r_logging := Omitted;
     Settings.r_platforms :=
       Given {| PlatformsConfig.r_feishu :=
                  Given {| FeishuConfig.r_enabled := Given true;
                           FeishuConfig.r_type := Omitted;
                           FeishuConfig.r_app_id := Omitted;
                           FeishuConfig.r_app_secret := Omitted;
                           FeishuConfig.r_verification_token := Omitted;
                           FeishuConfig.r_encrypt_key := Omitted;
                           FeishuConfig.r_connection_mode := Omitted;
                           FeishuConfig.r_domain := Omitted |};
                PlatformsConfig.r_wecom := Omitted;
                PlatformsConfig.r_dingtalk := Omitted;
                PlatformsConfig.r_qq := Omitted |};
     Settings.r_config_file := Omitted;
     Settings.r_extra := false |}.

(** [auth: {token: <token>}] *)
Definition with_token (token : string) : Settings.raw :=
  {| Settings.r_server := Omitted;
     Settings.r_auth :=
       Given {| AuthConfig.r_type := Omitted;
                AuthConfig.r_token := Given token;
                AuthConfig.r_jwt_secret := Omitted;
                AuthConfig.r_jwt_algorithm := Omitted;
                AuthConfig.r_jwt_expire_hours := Omitted |};
     Settings.r_logging := Omitted;
     Settings.r_platforms := Omitted;
     Settings.r_config_file := Omitted;
     Settings.r_extra := false |}.

(** [platforms: {qq: {enabled: true, app_id: <app_id>, token: <token>}}] *)
Definition qq_raw (app_id token : field string) : QQConfig.raw :=
  {| QQConfig.r_enabled := Given true;
     QQConfig.r_type := Omitted;
     QQConfig.r_app_id := app_id;
     QQConfig.r_token := token |}.
Definition qq_section (app_id token : field string) : PlatformsConfig.raw :=
  {| PlatformsConfig.r_feishu := Omitted;
     PlatformsConfig.r_wecom := Omitted;
     PlatformsConfig.r_dingtalk := Omitted;
     PlatformsConfig.r_qq := Given (qq_raw app_id token) |}.
Definition qq_enabled (app_id token : field string) : Settings.raw :=
  {| Settings.r_server := Omitted;
     Settings.r_auth := Omitted;
     Settings.r_logging := Omitted;
     Settings.r_platforms := Given (qq_section app_id token);
     Settings.r_config_file := Omitted;
     Settings.r_extra := false |}.

(** ** Outbound *)

(** A Feishu client whose calls succeed, and a QQ API that answers every
    call with an object carrying the id [reply_1]. *)
Definition feishu_up : Feishu.client :=
  {| Feishu.send_text_message := λ _ _ _, Feishu.Returns true;
     Feishu.send_card_message := λ _ _ _, Feishu.Returns true |}.

Definition qq_up : QQ.api :=
  {| QQ.post_group_message := λ _ _ _,
       Ok (QQ.RObject (Some (PStr "reply_1")) None);
     QQ.post_c2c_message := λ _ _ _,
       Ok (QQ.RObject (Some (PStr "reply_1")) None);
     QQ.post_message := λ _ _,
       Ok (QQ.RObject (Some (PStr "reply_1")) None) |}.

(** A registry whose Feishu adapter is the one of [Feishu.send_message]
    over [feishu_up]. *)
Definition feishu_registry : MessageRouter.AdapterManager :=
  {| MessageRouter.live :=
       <["feishu" := feishu_adapter (rt_builtins R0) (Some feishu_up)]> ∅ |}.

(** A QQ API that hands back the [msg_id] it is called with. *)
Definition qq_echo : QQ.api :=
  {| QQ.post_group_message := λ _ msg_id _, Ok (QQ.RObject (Some msg_id) None);
     QQ.post_c2c_message := λ _ msg_id _, Ok (QQ.RObject (Some msg_id) None);
     QQ.post_message := λ _ _, Ok QQ.RNone |}.

(** A group message [m_77] in the group [g_1]. *)
Definition qq_group_message : QQ.BotMessage :=
  {| QQ.m_content := Some (PStr "hello");
     QQ.m_author :=
       Some {| QQ.a_id := None; QQ.a_user_openid := None;
               QQ.a_member_openid := Some (PStr "member_5") |};
     QQ.m_author_id := None;
     QQ.m_group_openid := Some (PStr "g_1");
     QQ.m_channel_id := None;
     QQ.m_id := Some (PStr "m_77") |}.

(** ** Hubs *)

Import ConnectionManager Endpoint.

(** Every transport works; no transport works; the transport of socket 7
    is down. *)
Definition W_up : world :=
  {| time := 1000%float; int_time := 1000;
     send_ok := λ _, true; close_ok := λ _, true |}.
Definition W_down : world :=
  {| time := 1000%float; int_time := 1000;
     send_ok := λ _, false; close_ok := λ _, true |}.
Definition W_7_down : world :=
  {| time := 1000%float; int_time := 1000;
     send_ok := λ ws, negb (ws =? 7)%N; close_ok := λ _, true |}.

(** A later moment, every transport working. *)
Definition W_later : world :=
  {| time := 2000%float; int_time := 2000;
     send_ok := λ _, true; close_ok := λ _, true |}.

Definition msg : WSMessage :=
  {| type := TMessage; channel := "messages"; timestamp := 1700000000;
     payload := Some (PDict [("platform", PStr "feishu")]) |}.

Definition auth_frame (token : string) : pyval :=
  PDict [("type", PStr "auth"); ("token", PStr token)].
Definition subscribe_frame (channels : list string) : pyval :=
  PDict [("type", PStr "subscribe"); ("channels", PList (PStr <$> channels))].

(** One connection, not authenticated. *)
Definition hub_one : hub := final (connect W_up 7 init).

(** A socket connects, authenticates and subscribes to [channels]. *)
Definition join (ws : N) (channels : list string) (h : hub) : hub :=
  final (handle_frame W_up ws (subscribe_frame channels)
    (final (handle_frame W_up ws (auth_frame "your_api_token")
      (final (connect W_up ws h))))).

(** Socket 7 on [messages], socket 8 on [alerts], socket 9 on nothing. *)
Definition hub_three : hub :=
  final (connect W_up 9 (join 8 ["alerts"] (join 7 ["messages"] init))).

(** Connection 1 was last seen 120 seconds before the clock of [W_up],
    connection 2 ten seconds before it. *)
Definition hub_aged : hub :=
  {| _connections :=
       <[1%N := {| user_id := mk_user_id 1; authenticated := false;
                   last_seen := 880%float |}]>
         (<[2%N := {| user_id := mk_user_id 2; authenticated := false;
                      last_seen := 990%float |}]> ∅);
     _subscriptions := <[mk_user_id 1 := ∅]> (<[mk_user_id 2 := ∅]> ∅);
     _valid_tokens := ∅ |}.

End Samples.

(* ********************************************************************* *)
(** * Properties *)
(* ********************************************************************* *)

(* ===================================================================== *)
(** ** Fallible code *)
(* ===================================================================== *)

Lemma res_bind_Ok {A B} (r : res A) (k : A → res B) (b : B) :
  res_bind r k = Ok b → ∃ a, r = Ok a ∧ k a = Ok b.
Proof. destruct r as [a|e]; simpl; [eauto | discriminate]. Qed.

(** Splits a hypothesis [let? x := r in k = Ok b] into its two runs. *)
Ltac bind_inv H :=
  let a := fresh "v" in
  let Ha := fresh "Hv" in
  apply res_bind_Ok in H; destruct H as (a & Ha & H).

(* ===================================================================== *)
(** ** The adapters' conversation identifiers *)
(* ===================================================================== *)

Section AdapterFacts.
Import Py Base.

Lemma eq_str_true (v : pyval) (s : string) :
  eq_str v s = true ↔ v = PStr s.
Proof.
  destruct v; simpl; split; try discriminate; intros H.
  - apply String.eqb_eq in H. by subst.
  - injection H as ->. apply String.eqb_refl.
Qed.

Lemma eq_str_false (v : pyval) (s : string) :
  eq_str v s = false ↔ v ≠ PStr s.
Proof.
  rewrite <- eq_str_true. destruct (eq_str v s); split; congruence.
Qed.

(** Feishu: a message of type [user] carries the sender's id, any other
    type the [chat_id] of the message object. *)
Lemma feishu_conversation_id (B : builtins) (event_data : pyval) (m : Message) :
  Feishu._parse_message_from_event B event_data = Ok m →
  (conversation_type (conversation m) = PStr "user" →
   conversation_id (conversation m) = sender_id (sender m))
  ∧ (conversation_type (conversation m) ≠ PStr "user" →
     Feishu.chat_handle event_data = Ok (conversation_id (conversation m))).
Proof.
  unfold Feishu._parse_message_from_event, Feishu.chat_handle. intros H.
  bind_inv H. bind_inv H. bind_inv H. bind_inv H. bind_inv H. bind_inv H.
  bind_inv H. bind_inv H. bind_inv H. bind_inv H. bind_inv H.
  destruct v9 as [content_data content_raw].
  bind_inv H. bind_inv H. bind_inv H.
  injection H as <-. simpl.
  rewrite Hv0. simpl. rewrite Hv1. simpl. rewrite Hv3.
  split; intros Ht.
  - apply eq_str_true in Ht. by rewrite Ht.
  - apply eq_str_false in Ht. by rewrite Ht.
Qed.

Lemma dingtalk_conversation_id (B : builtins) (now_ms : Z)
    (ding_msg : DingTalk.ChatbotMessage) (m : Message) :
  DingTalk._parse_message B now_ms ding_msg = Ok m →
  (conversation_type (conversation m) = PStr "user" →
   conversation_id (conversation m) = sender_id (sender m))
  ∧ (conversation_type (conversation m) = PStr "group" →
     conversation_id (conversation m) = DingTalk.conversation_id ding_msg).
Proof.
  unfold DingTalk._parse_message. intros H. bind_inv H.
  injection H as <-. simpl.
  destruct (eq_str (DingTalk.conversation_type ding_msg) "2"); simpl;
    split; first [done | discriminate].
Qed.

Lemma qq_conversation_id (now_s : Z) (message : QQ.BotMessage)
    (kind : string) (ids : QQ.last_msg_ids) (m : Message)
    (ids' : QQ.last_msg_ids) :
  QQ._handle_message now_s message kind ids = Ok (m, ids') →
  conversation_type (conversation m) = PStr kind
  ∧ (kind = "user" → conversation_id (conversation m) = sender_id (sender m))
  ∧ (kind = "group" →
     conversation_id (conversation m)
     = QQ.getattr (QQ.m_group_openid message) (PStr ""))
  ∧ (kind = "guild" →
     conversation_id (conversation m)
     = QQ.getattr (QQ.m_channel_id message) (PStr "")).
Proof.
  unfold QQ._handle_message. intros H. bind_inv H.
  injection H as <- <-. simpl.
  split; [done|]. repeat split; intros ->; reflexivity.
Qed.


End AdapterFacts.

(* ===================================================================== *)
(** ** The message router *)
(* ===================================================================== *)

Section RouterFacts.
Import MessageRouter.

(** C5.  [route_outgoing] fails with the adapter-not-loaded error when the
    platform has no live adapter; otherwise it is the adapter's
    [send_message]: it returns the message id the adapter produced and
    raises the very error the adapter raised. *)
Theorem route_outgoing_delegates (r : router)
    (platform to message_type content conversation_type : string) :
  (get_adapter (adapter_manager r) platform = None →
   route_outgoing r platform to message_type content conversation_type
   = Raise (not_loaded platform))
  ∧ (∀ a, get_adapter (adapter_manager r) platform = Some a →
     (∀ message_id,
        send_message a to message_type content conversation_type
        = Ok message_id →
        route_outgoing r platform to message_type content conversation_type
        = Ok message_id)
     ∧ (∀ e,
        send_message a to message_type content conversation_type = Raise e →
        route_outgoing r platform to message_type content conversation_type
        = Raise e)).
Proof.
  unfold route_outgoing. split.
  - intros ->. reflexivity.
  - intros a ->. split.
    + intros message_id ->. reflexivity.
    + intros e ->. reflexivity.
Qed.

(** What [send_and_wait] leaves in the pending map: the map before the
    call without the key the call drew. *)
Lemma send_and_wait_pending (E : call_env) (r : router)
    (platform to message_type content conversation_type : string) :
  _pending_messages
    (send_and_wait E r platform to message_type content conversation_type).2
  = delete (create_message_id (uuid_hex E)) (_pending_messages r).
Proof.
  unfold send_and_wait. simpl.
  destruct (wait_for _ _); simpl;
    apply map_eq; intros k;
    destruct (decide (create_message_id (uuid_hex E) = k)) as [<-|Hne];
    rewrite ?lookup_delete_eq, ?lookup_delete_ne, ?lookup_alter_ne,
      ?lookup_insert_ne by done; done.
Qed.

(** The outcome of [send_and_wait] is one of: the adapter's message id,
    the timeout error, or the error [route_outgoing] raised. *)
Lemma send_and_wait_outcome (E : call_env) (r : router)
    (platform to message_type content conversation_type : string) :
  (send_and_wait E r platform to message_type content conversation_type).1
  = if deadline_elapsed E then Raise TimeoutError
    else route_outgoing r platform to message_type content conversation_type.
Proof. unfold send_and_wait, wait_for. simpl. by destruct (deadline_elapsed E). Qed.

Lemma serve_all_pending (r : router) (qs : list request) :
  _pending_messages r = ∅ → _pending_messages (serve_all r qs) = ∅.
Proof.
  revert r. induction qs as [|q qs IH]; intros r Hr; [done|].
  change (serve_all r (q :: qs)) with (serve_all (serve r q).2 qs).
  apply IH. unfold serve. rewrite send_and_wait_pending, Hr.
  apply delete_empty.
Qed.

Lemma sequential_pending (r : router) :
  sequential r → _pending_messages r = ∅.
Proof. intros (am & qs & ->). by apply serve_all_pending. Qed.

(** When the identifier drawn is not a key of the map, the call restores
    the map, whatever else the map holds. *)
Lemma send_and_wait_fresh (E : call_env) (r : router)
    (platform to message_type content conversation_type : string) :
  _pending_messages r !! create_message_id (uuid_hex E) = None →
  _pending_messages
    (send_and_wait E r platform to message_type content conversation_type).2
  = _pending_messages r.
Proof. intros H. rewrite send_and_wait_pending. by apply delete_id. Qed.

(** C10.  Whatever the outcome of a call to [send_and_wait], the pending
    map after it has no entry under the key the call created; when calls
    are not concurrent the map after the call is the map before it. *)
Theorem send_and_wait_restores_pending (E : call_env) (r : router)
    (platform to message_type content conversation_type : string) :
  let r' :=
    (send_and_wait E r platform to message_type content conversation_type).2 in
  _pending_messages r' !! create_message_id (uuid_hex E) = None
  ∧ (sequential r → _pending_messages r' = _pending_messages r).
Proof.
  cbv zeta. split.
  - rewrite send_and_wait_pending. apply lookup_delete_eq.
  - intros Hs. apply send_and_wait_fresh.
    rewrite (sequential_pending r Hs). apply lookup_empty.
Qed.

End RouterFacts.

(* ===================================================================== *)
(** ** The configuration manager *)
(* ===================================================================== *)

Section ConfigFacts.
Import Schemas ConfigManager.

(** No load lowers the version. *)
Lemma load_version_monotone (cm : config_manager) (doc : document) :
  version cm ≤ version (load cm doc).2.
Proof.
  unfold load. destruct doc; repeat case_match; simpl; lia.
Qed.

(** A load that finds a document and succeeds makes the result the
    snapshot and adds one to the version. *)
Lemma load_present_success (cm : config_manager) (doc : document)
    (c : Settings.t) :
  doc ≠ Absent → (load cm doc).1 = Ok c →
  _config (load cm doc).2 = Some c
  ∧ version (load cm doc).2 = version cm + 1.
Proof.
  intros Hd. unfold load.
  destruct doc; try done; repeat case_match; simpl; intros ?; by simplify_eq.
Qed.

(** A load that raises leaves the snapshot and the version as they were. *)
Lemma load_failure_keeps_snapshot (cm : config_manager) (doc : document)
    (e : exn) :
  (load cm doc).1 = Raise e →
  _config (load cm doc).2 = _config cm
  ∧ version (load cm doc).2 = version cm.
Proof.
  unfold load. destruct doc; repeat case_match; simpl; done.
Qed.

(** A credential the document gives as the empty string, for a platform
    it enables, is rejected. *)
Lemma validated_required_empty (en : field bool) :
  validated "" (required_when_enabled (plain false en)) (Given "") = None
  ↔ en = Given true.
Proof.
  destruct en as [|[]|]; simpl; unfold required_when_enabled; simpl;
    split; (done || discriminate).
Qed.

Lemma feishu_explicit_empty_app_id (r : FeishuConfig.raw) :
  FeishuConfig.r_enabled r = Given true →
  FeishuConfig.r_app_id r = Given "" →
  FeishuConfig.model_validate r = None.
Proof.
  intros He Ha. unfold FeishuConfig.model_validate.
  rewrite He, Ha. simpl. by destruct (plain "app" _).
Qed.

(** C2, at the input where the code departs from it: a load that finds no
    document succeeds and replaces the snapshot with the all-defaults
    configuration, and the version stays what it was. *)
Theorem load_absent_keeps_version (cm : config_manager) :
  (load cm Absent).1 = Ok Settings.defaults
  ∧ _config (load cm Absent).2 = Some Settings.defaults
  ∧ version (load cm Absent).2 = version cm.
Proof. done. Qed.

(** The same through [reload]. *)
Lemma reload_absent_keeps_version (cm : config_manager) :
  (reload cm Absent).1.1 = Ok Settings.defaults
  ∧ version (reload cm Absent).1.2 = version cm.
Proof. done. Qed.

End ConfigFacts.

Section ConfigWitnesses.
Import Schemas ConfigManager.

(** C3, at the input where the code departs from it: the document
    [platforms: {feishu: {enabled: true}}] enables a platform and gives it
    no credentials; the load succeeds, and the snapshot it installs has the
    platform enabled with empty [app_id] and [app_secret]. *)
Theorem load_enabled_platform_without_credentials :
  ∃ c,
    (load init (Mapping Samples.feishu_enabled_only)).1 = Ok c
    ∧ _config (load init (Mapping Samples.feishu_enabled_only)).2 = Some c
    ∧ version (load init (Mapping Samples.feishu_enabled_only)).2 = 1
    ∧ FeishuConfig.enabled (PlatformsConfig.feishu (Settings.platforms c))
      = true
    ∧ FeishuConfig.credentials (PlatformsConfig.feishu (Settings.platforms c))
      = [""; ""].
Proof. eexists. repeat split; vm_compute; reflexivity. Qed.

(** Two loads that succeed one after the other and end at the version
    they started from. *)
Example load_absent_twice :
  version (load (load init Absent).2 Absent).2 = version init.
Proof. reflexivity. Qed.

End ConfigWitnesses.

Section AdapterWitnesses.
Import Py Base.


(** What the Feishu conversion does with the chat type [p2p]: the message
    keeps that type, which is neither [user] nor [group], and carries the
    chat handle. *)
Example feishu_p2p_message :
  ∃ m, produce Samples.R0 (FeishuEvent Samples.feishu_p2p_event) = Ok m
       ∧ conversation_type (conversation m) = PStr "p2p"
       ∧ conversation_id (conversation m) = PStr "oc_42"
       ∧ sender_id (sender m) = PStr "ou_7".
Proof. eexists. repeat split; vm_compute; reflexivity. Qed.

End AdapterWitnesses.

Section RouterWitnesses.
Import MessageRouter.

Lemma route_outgoing_delegates_witness :
  route_outgoing (init Samples.two_adapters) "unknown-platform" "u" "text" "hi"
    "user" = Raise (not_loaded "unknown-platform")
  ∧ route_outgoing (init Samples.two_adapters) "feishu" "ou_7" "text" "hi"
      "user" = Ok "ou_7"
  ∧ route_outgoing (init Samples.two_adapters) "dingtalk" "ou_7" "text" "hi"
      "user" = Raise (TransportError "platform unreachable").
Proof.
  split; [|split].
  - apply (route_outgoing_delegates (init Samples.two_adapters)
             "unknown-platform" "u" "text" "hi" "user").
    vm_compute. reflexivity.
  - eapply (route_outgoing_delegates (init Samples.two_adapters)
              "feishu" "ou_7" "text" "hi" "user");
      vm_compute; reflexivity.
  - eapply (route_outgoing_delegates (init Samples.two_adapters)
              "dingtalk" "ou_7" "text" "hi" "user");
      vm_compute; reflexivity.
Defined.

Lemma send_and_wait_restores_pending_witness :
  _pending_messages
    (send_and_wait (Samples.call "00dd" false) Samples.served "feishu" "ou_7"
       "text" "hi" "user").2
  = _pending_messages Samples.served.
Proof.
  apply (send_and_wait_restores_pending (Samples.call "00dd" false)
           Samples.served "feishu" "ou_7" "text" "hi" "user").
  unfold sequential, Samples.served. eexists _, _. reflexivity.
Defined.

End RouterWitnesses.

(* ===================================================================== *)
(** ** The connection manager: what each operation does to the hub *)
(* ===================================================================== *)

Section HubRuns.
Import Py ConnectionManager.

Lemma hub_eq (h1 h2 : hub) :
  _connections h1 = _connections h2 →
  _subscriptions h1 = _subscriptions h2 →
  _valid_tokens h1 = _valid_tokens h2 →
  h1 = h2.
Proof. destruct h1, h2; simpl; by intros -> -> ->. Qed.

Lemma bind_ok {A B} (m : M A) (k : A → M B) (h h1 : hub) (a : A)
    (t1 : list event) :
  m h = (Ok a, h1, t1) →
  bind m k h = ((k a h1).1.1, (k a h1).1.2, t1 ++ (k a h1).2).
Proof. unfold bind. intros ->. by destruct (k a h1) as [[? ?] ?]. Qed.

Lemma unsubscribe_run (h : hub) (ws : N) (channel : string) (info : conn_info) :
  _connections h !! ws = Some info →
  ∃ b h',
    unsubscribe ws channel h = (Ok b, h', [])
    ∧ _connections h' = _connections h
    ∧ _valid_tokens h' = _valid_tokens h
    ∧ delete (user_id info) (_subscriptions h')
      = delete (user_id info) (_subscriptions h).
Proof.
  intros Hc. unfold unsubscribe, bind, get_hub. simpl. rewrite Hc.
  destruct (default ∅ (_subscriptions h !! user_id info) !! channel)
    as [s|] eqn:Hs; simpl.
  - eexists _, _. split; [reflexivity|]. simpl.
    repeat split. apply delete_insert_eq.
  - eexists _, _. split; [reflexivity|]. done.
Qed.

Lemma unsubscribe_all_run (ws : N) (info : conn_info) (channels : list string)
    (h : hub) :
  _connections h !! ws = Some info →
  ∃ h',
    for_each channels (λ channel, let! _ := unsubscribe ws channel in ret tt) h
    = (Ok tt, h', [])
    ∧ _connections h' = _connections h
    ∧ _valid_tokens h' = _valid_tokens h
    ∧ delete (user_id info) (_subscriptions h')
      = delete (user_id info) (_subscriptions h).
Proof.
  revert h. induction channels as [|c cs IH]; intros h Hc.
  - by exists h.
  - destruct (unsubscribe_run h ws c info Hc) as (b & h1 & Hrun & Hc1 & Ht1 & Hs1).
    destruct (IH h1) as (h2 & Hrun2 & Hc2 & Ht2 & Hs2); [by rewrite Hc1|].
    exists h2. split.
    + unfold for_each in *. simpl.
      unfold bind at 1. unfold bind at 1. rewrite Hrun. simpl.
      by rewrite Hrun2.
    + split; [congruence|]. split; congruence.
Qed.

Lemma disconnect_run (ws : N) (h : hub) :
  disconnect ws h = (Ok tt, disconnect_state h ws, []).
Proof.
  unfold disconnect, disconnect_state, bind at 1, get_hub. simpl.
  destruct (_connections h !! ws) as [info|] eqn:Hc; [|done].
  destruct (_subscriptions h !! user_id info) as [chans|] eqn:Hs.
  - destruct (unsubscribe_all_run ws info (keys chans) h Hc)
      as (h' & Hrun & Hc' & Ht' & Hs').
    unfold bind at 1. unfold bind at 1. rewrite Hrun. simpl.
    f_equal. f_equal. apply hub_eq; simpl; congruence.
  - simpl. f_equal. f_equal. apply hub_eq; simpl; try done.
    symmetry. by apply delete_id.
Qed.

(** [send_json] never raises: a transport error ends in [disconnect]. *)
Lemma send_json_run (W : world) (ws : N) (data : WSMessage) (h : hub) :
  send_json W ws data h = (Ok tt, drop_failed W h ws, [send_event W data ws]).
Proof.
  unfold send_json, try_except, websocket_send_json, drop_failed, send_event.
  destruct (send_ok W ws); simpl; [done|].
  by rewrite disconnect_run.
Qed.

(** One turn of a broadcast loop counts the socket, delivered or not, and
    never reaches its [except] branch. *)
Lemma deliver_run (W : world) (data : WSMessage) (acc : Z * list N) (ws : N)
    (h : hub) :
  deliver W data acc ws h
  = (Ok (acc.1 + 1, acc.2), drop_failed W h ws, [send_event W data ws]).
Proof.
  unfold deliver, try_except, bind. by rewrite send_json_run.
Qed.

Lemma deliver_all_run (W : world) (data : WSMessage) (l : list N)
    (acc : Z * list N) (h : hub) :
  for_fold (deliver W data) acc l h
  = (Ok (acc.1 + Z.of_nat (length l), acc.2),
     foldl (drop_failed W) h l,
     send_event W data <$> l).
Proof.
  revert acc h. induction l as [|ws l IH]; intros acc h; simpl.
  - destruct acc as [n d]. unfold ret. simpl. by rewrite Z.add_0_r.
  - unfold bind. rewrite deliver_run, IH. simpl.
    rewrite <- Z.add_assoc. do 5 f_equal. lia.
Qed.

Lemma channel_loop_run (W : world) (data : WSMessage) (channel : string)
    (items : list (string * gmap string (gset N))) (acc : Z * list N)
    (h : hub) :
  for_fold (λ acc item,
      match (item.2 : gmap string (gset N)) !! channel with
      | Some s => for_fold (deliver W data) acc (elements s)
      | None => ret acc
      end) acc items h
  = (Ok (acc.1 + Z.of_nat (length (items ≫= item_sockets channel)), acc.2),
     foldl (drop_failed W) h (items ≫= item_sockets channel),
     send_event W data <$> (items ≫= item_sockets channel)).
Proof.
  revert acc h. induction items as [|[uid chans] items IH]; intros acc h.
  - destruct acc as [n d]. unfold ret. simpl. by rewrite Z.add_0_r.
  - change (((uid, chans) :: items) ≫= item_sockets channel)
      with (item_sockets channel (uid, chans)
            ++ (items ≫= item_sockets channel)).
    unfold item_sockets at 1 3 5. simpl. unfold bind.
    destruct (chans !! channel) as [s|] eqn:Hs; simpl.
    + rewrite deliver_all_run. rewrite IH. simpl.
      rewrite length_app, foldl_app, fmap_app.
      rewrite <- Z.add_assoc. do 5 f_equal. lia.
    + by rewrite IH.
Qed.

Lemma broadcast_run (W : world) (data : WSMessage) (channel : string)
    (h : hub) :
  broadcast W data channel h
  = (Ok (Z.of_nat (length (targets h channel))),
     foldl (drop_failed W) h (targets h channel),
     send_event W data <$> targets h channel).
Proof.
  unfold broadcast, targets, bind at 1, get_hub. simpl.
  destruct (String.eqb channel "*").
  - unfold bind at 1. rewrite deliver_all_run. simpl.
    unfold for_each. simpl. by rewrite app_nil_r.
  - unfold bind at 1.
    rewrite (channel_loop_run W data channel). simpl.
    unfold for_each. simpl. by rewrite app_nil_r.
Qed.

End HubRuns.

(* ===================================================================== *)
(** ** The invariant of the hub *)
(* ===================================================================== *)

Section HubInvariant.
Import Py ConnectionManager Endpoint.

Lemma mk_user_id_inj (ws1 ws2 : N) :
  mk_user_id ws1 = mk_user_id ws2 → ws1 = ws2.
Proof.
  unfold mk_user_id. intros H.
  apply (inj (String.append "ws_user_")) in H.
  by apply (inj pretty) in H.
Qed.

Lemma connections_disconnect_state (h : hub) (ws : N) :
  _connections (disconnect_state h ws) = delete ws (_connections h).
Proof.
  unfold disconnect_state. destruct (_connections h !! ws) eqn:Hc; [done|].
  symmetry. by apply delete_id.
Qed.

Lemma valid_tokens_disconnect_state (h : hub) (ws : N) :
  _valid_tokens (disconnect_state h ws) = _valid_tokens h.
Proof. unfold disconnect_state. by destruct (_connections h !! ws). Qed.

Lemma subscriptions_disconnect_state (h : hub) (ws : N) (uid : string) :
  _subscriptions (disconnect_state h ws) !! uid = None
  ∨ _subscriptions (disconnect_state h ws) !! uid = _subscriptions h !! uid.
Proof.
  unfold disconnect_state. destruct (_connections h !! ws) as [info|]; simpl.
  - destruct (decide (user_id info = uid)) as [->|Hne].
    + left. apply lookup_delete_eq.
    + right. by apply lookup_delete_ne.
  - by right.
Qed.

Lemma is_authenticated_lookup (h : hub) (ws : N) :
  is_authenticated h ws = true ↔
  ∃ info, _connections h !! ws = Some info ∧ authenticated info = true.
Proof.
  unfold is_authenticated. destruct (_connections h !! ws) as [info|].
  - split; [eauto|]. by intros (? & [= <-] & ?).
  - split; [done|]. by intros (? & ? & ?).
Qed.

Lemma inv_init : hub_inv init.
Proof.
  split; [split|]; simpl.
  - intros ws info H. by rewrite lookup_empty in H.
  - intros ws info H. by rewrite lookup_empty in H.
  - intros uid chans H. by rewrite lookup_empty in H.
  - intros uid chans channel s ws H. by rewrite lookup_empty in H.
  - intros channel ws (uid & chans & s & H & _). simpl in H.
    by rewrite lookup_empty in H.
Qed.

Lemma inv_connect_state (W : world) (h : hub) (ws : N) :
  hub_inv h → hub_inv (connect_state W h ws).
Proof.
  intros [[Hid Hsubs Howner Hmem] Hauth]. split; [split|]; simpl.
  - intros ws' info'. destruct (decide (ws = ws')) as [<-|Hne].
    + rewrite lookup_insert_eq. by intros [= <-].
    + rewrite lookup_insert_ne by done. apply Hid.
  - intros ws' info'. destruct (decide (ws = ws')) as [<-|Hne].
    + rewrite lookup_insert_eq. intros [= <-]. simpl.
      rewrite lookup_insert_eq. eauto.
    + rewrite lookup_insert_ne by done. intros Hc.
      destruct (decide (mk_user_id ws = user_id info')) as [<-|Hu].
      * rewrite lookup_insert_eq. eauto.
      * rewrite lookup_insert_ne by done. by eapply Hsubs.
  - intros uid chans. destruct (decide (mk_user_id ws = uid)) as [<-|Hu].
    + intros _. exists ws. split; [done|]. rewrite lookup_insert_eq. eauto.
    + rewrite lookup_insert_ne by done. intros Hs.
      destruct (Howner _ _ Hs) as (ws' & -> & Hc). exists ws'. split; [done|].
      destruct (decide (ws = ws')) as [<-|Hne]; [done|].
      by rewrite lookup_insert_ne.
  - intros uid chans channel s ws'.
    destruct (decide (mk_user_id ws = uid)) as [<-|Hu].
    + rewrite lookup_insert_eq. intros [= <-]. by rewrite lookup_empty.
    + rewrite lookup_insert_ne by done. apply Hmem.
  - intros channel ws' (uid & chans & s & Hs & Hc & Hin). simpl in Hs.
    destruct (decide (mk_user_id ws = uid)) as [<-|Hu].
    + rewrite lookup_insert_eq in Hs. injection Hs as <-.
      by rewrite lookup_empty in Hc.
    + rewrite lookup_insert_ne in Hs by done.
      assert (ws ≠ ws') as Hne.
      { intros <-. apply Hu. by eapply Hmem. }
      unfold is_authenticated. simpl. rewrite lookup_insert_ne by done.
      apply (Hauth channel ws'). by exists uid, chans, s.
Qed.

Lemma inv_disconnect_state (h : hub) (ws : N) :
  hub_inv h → hub_inv (disconnect_state h ws).
Proof.
  intros Hinv. unfold disconnect_state.
  destruct (_connections h !! ws) as [info|] eqn:Hws; [|done].
  destruct Hinv as [[Hid Hsubs Howner Hmem] Hauth].
  assert (user_id info = mk_user_id ws) as Hu by by apply Hid.
  split; [split|]; simpl.
  - intros ws' info'. destruct (decide (ws = ws')) as [<-|Hne].
    + by rewrite lookup_delete_eq.
    + rewrite lookup_delete_ne by done. apply Hid.
  - intros ws' info'. destruct (decide (ws = ws')) as [<-|Hne].
    + by rewrite lookup_delete_eq.
    + rewrite lookup_delete_ne by done. intros Hc.
      rewrite lookup_delete_ne; [by eapply Hsubs|].
      rewrite Hu, (Hid _ _ Hc). intros Heq. by apply mk_user_id_inj in Heq.
  - intros uid chans. destruct (decide (user_id info = uid)) as [<-|Hne].
    + by rewrite lookup_delete_eq.
    + rewrite lookup_delete_ne by done. intros Hs.
      destruct (Howner _ _ Hs) as (ws' & -> & Hc). exists ws'. split; [done|].
      rewrite lookup_delete_ne; [done|]. intros <-. by apply Hne.
  - intros uid chans channel s ws'.
    destruct (decide (user_id info = uid)) as [<-|Hne].
    + by rewrite lookup_delete_eq.
    + rewrite lookup_delete_ne by done. apply Hmem.
  - intros channel ws' (uid & chans & s & Hs & Hc & Hin). simpl in Hs.
    destruct (decide (user_id info = uid)) as [<-|Hne].
    + by rewrite lookup_delete_eq in Hs.
    + rewrite lookup_delete_ne in Hs by done.
      assert (ws ≠ ws') as Hne'.
      { intros <-. apply Hne. rewrite Hu. by eapply Hmem. }
      unfold is_authenticated. simpl. rewrite lookup_delete_ne by done.
      apply (Hauth channel ws'). by exists uid, chans, s.
Qed.

Lemma inv_drop_failed (W : world) (h : hub) (ws : N) :
  hub_inv h → hub_inv (drop_failed W h ws).
Proof.
  unfold drop_failed. destruct (send_ok W ws); [done|].
  apply inv_disconnect_state.
Qed.

Lemma inv_foldl {X} (f : hub → X → hub) (l : list X) (h : hub) :
  (∀ h x, hub_inv h → hub_inv (f h x)) →
  hub_inv h → hub_inv (foldl f h l).
Proof.
  intros Hf. revert h. induction l as [|x l IH]; intros h Hh; [done|].
  simpl. apply IH, Hf, Hh.
Qed.

(** Changing a connection's record keeps the invariant when the record
    keeps its [user_id] and an authenticated connection stays so. *)
Lemma inv_alter (f : conn_info → conn_info) (ws : N) (h : hub) :
  keeps_user_id f →
  (∀ info, authenticated info = true → authenticated (f info) = true) →
  hub_inv h → hub_inv (set_connections (alter f ws) h).
Proof.
  intros Hf Hfa [[Hid Hsubs Howner Hmem] Hauth]. split; [split|]; simpl.
  - intros ws' info'. rewrite lookup_alter.
    destruct (decide (ws = ws')) as [<-|Hne]; [|apply Hid].
    destruct (_connections h !! ws) as [info|] eqn:Hc; simpl; [|done].
    intros [= <-]. rewrite Hf. by apply Hid.
  - intros ws' info'. rewrite lookup_alter.
    destruct (decide (ws = ws')) as [<-|Hne]; [|apply Hsubs].
    destruct (_connections h !! ws) as [info|] eqn:Hc; simpl; [|done].
    intros [= <-]. rewrite Hf. by eapply Hsubs.
  - intros uid chans Hs. destruct (Howner _ _ Hs) as (ws' & -> & Hc).
    exists ws'. split; [done|]. rewrite lookup_alter.
    destruct (decide (ws = ws')) as [<-|Hne]; [|done].
    destruct Hc as [info ->]. simpl. eauto.
  - apply Hmem.
  - intros channel ws' Hsub. specialize (Hauth channel ws' Hsub).
    apply is_authenticated_lookup in Hauth as (info & Hc & Ha).
    apply is_authenticated_lookup. simpl. rewrite lookup_alter.
    destruct (decide (ws = ws')) as [<-|Hne]; [|eauto].
    rewrite Hc. simpl. eauto.
Qed.

Lemma inv_subscribe_state (h : hub) (ws : N) (channel : string) :
  is_authenticated h ws = true →
  hub_inv h → hub_inv (subscribe_state h ws channel).
Proof.
  intros Ha Hinv. unfold subscribe_state.
  destruct (_connections h !! ws) as [info|] eqn:Hws; [|done].
  destruct (_subscriptions h !! user_id info) as [chans|] eqn:Hch; [|done].
  destruct Hinv as [[Hid Hsubs Howner Hmem] Hauth].
  assert (user_id info = mk_user_id ws) as Hu by by apply Hid.
  split; [split|]; simpl.
  - apply Hid.
  - intros ws' info' Hc.
    destruct (decide (user_id info = user_id info')) as [<-|Hne].
    + rewrite lookup_insert_eq. eauto.
    + rewrite lookup_insert_ne by done. by eapply Hsubs.
  - intros uid chans'. destruct (decide (user_id info = uid)) as [<-|Hne].
    + intros _. exists ws. split; [done|]. eauto.
    + rewrite lookup_insert_ne by done. apply Howner.
  - intros uid chans' channel' s ws'.
    destruct (decide (user_id info = uid)) as [<-|Hne].
    + rewrite lookup_insert_eq. intros [= <-].
      destruct (decide (channel = channel')) as [<-|Hnc].
      * rewrite lookup_insert_eq. intros [= <-].
        rewrite elem_of_union, elem_of_singleton. intros [Hin| ->]; [|done].
        destruct (chans !! channel) as [s0|] eqn:Hs0; simpl in Hin.
        -- by eapply Hmem.
        -- by apply not_elem_of_empty in Hin.
      * rewrite lookup_insert_ne by done. intros Hs. by eapply Hmem.
    + rewrite lookup_insert_ne by done. apply Hmem.
  - intros channel' ws' (uid & chans' & s & Hs & Hc & Hin). simpl in Hs.
    change (is_authenticated h ws' = true).
    destruct (decide (user_id info = uid)) as [<-|Hne].
    + rewrite lookup_insert_eq in Hs. injection Hs as <-.
      destruct (decide (channel = channel')) as [<-|Hnc].
      * rewrite lookup_insert_eq in Hc. injection Hc as <-.
        apply elem_of_union in Hin as [Hin|Hin].
        -- destruct (chans !! channel) as [s0|] eqn:Hs0; simpl in Hin.
           ++ apply (Hauth channel ws'). by exists (user_id info), chans, s0.
           ++ by apply not_elem_of_empty in Hin.
        -- apply elem_of_singleton in Hin. by subst.
      * rewrite lookup_insert_ne in Hc by done.
        apply (Hauth channel' ws'). by exists (user_id info), chans, s.
    + rewrite lookup_insert_ne in Hs by done.
      apply (Hauth channel' ws'). by exists uid, chans', s.
Qed.

Lemma inv_set_valid_tokens (tokens : list string) (h : hub) :
  hub_inv h → hub_inv (set_valid_tokens tokens h).
Proof. intros [[? ? ? ?] ?]. by split; [split|]. Qed.

End HubInvariant.

(* ===================================================================== *)
(** ** The invariant holds in every reachable hub *)
(* ===================================================================== *)

Section Reachable.
Import Py ConnectionManager Endpoint.

Lemma triple_ret {A} (P : hub → Prop) (a : A) (Q : A → hub → Prop)
    (E : hub → Prop) :
  (∀ h, P h → Q a h) → triple P (ret a) Q E.
Proof. intros H h Hh. by apply H. Qed.

Lemma triple_raise {A} (P : hub → Prop) (e : exn) (Q : A → hub → Prop)
    (E : hub → Prop) :
  (∀ h, P h → E h) → triple P (raise e) Q E.
Proof. intros H h Hh. by apply H. Qed.

Lemma triple_bind {A B} (P : hub → Prop) (m : M A) (Q : A → hub → Prop)
    (k : A → M B) (R : B → hub → Prop) (E : hub → Prop) :
  triple P m Q E → (∀ a, triple (Q a) (k a) R E) →
  triple P (bind m k) R E.
Proof.
  intros Hm Hk h Hh. specialize (Hm h Hh). unfold bind.
  destruct (m h) as [[[a|e] h1] t1]; [|done].
  specialize (Hk a h1 Hm). by destruct (k a h1) as [[[b|e] h2] t2].
Qed.

Lemma triple_try {A} (P : hub → Prop) (m : M A) (Q : A → hub → Prop)
    (handler : exn → M A) (E' E : hub → Prop) :
  triple P m Q E' → (∀ e, triple E' (handler e) Q E) →
  triple P (try_except m handler) Q E.
Proof.
  intros Hm Hk h Hh. specialize (Hm h Hh). unfold try_except.
  destruct (m h) as [[[a|e] h1] t1]; [done|].
  specialize (Hk e h1 Hm). by destruct (handler e h1) as [[[b|e'] h2] t2].
Qed.

Lemma triple_get (P : hub → Prop) (E : hub → Prop) :
  triple P get_hub (λ a h, P h ∧ a = h) E.
Proof. intros h Hh. by split. Qed.

Lemma triple_modify (P : hub → Prop) (f : hub → hub) (Q : unit → hub → Prop)
    (E : hub → Prop) :
  (∀ h, P h → Q tt (f h)) → triple P (modify f) Q E.
Proof. intros H h Hh. by apply H. Qed.

Lemma triple_emit (P : hub → Prop) (ev : event) (E : hub → Prop) :
  triple P (emit ev) (λ _, P) E.
Proof. by intros h Hh. Qed.

Lemma triple_lift {A} (P : hub → Prop) (r : res A) :
  triple P (lift r) (λ _, P) P.
Proof. intros h Hh. by destruct r. Qed.

Lemma triple_weaken {A} (P P' : hub → Prop) (m : M A)
    (Q Q' : A → hub → Prop) (E E' : hub → Prop) :
  triple P' m Q' E' →
  (∀ h, P h → P' h) → (∀ a h, Q' a h → Q a h) → (∀ h, E' h → E h) →
  triple P m Q E.
Proof.
  intros Hm HP HQ HE h Hh. specialize (Hm h (HP h Hh)).
  destruct (m h) as [[[a|e] h1] t1]; auto.
Qed.

Lemma triple_for_fold {A X} (I : hub → Prop) (body : A → X → M A)
    (acc : A) (l : list X) (E : hub → Prop) :
  (∀ acc x, triple I (body acc x) (λ _, I) E) →
  triple I (for_fold body acc l) (λ _, I) E.
Proof.
  intros Hb. revert acc. induction l as [|x l IH]; intros acc; simpl.
  - by apply triple_ret.
  - eapply triple_bind; [apply Hb|]. intros a. apply IH.
Qed.

(** The operations written as changes of the hub. *)

Lemma connect_run (W : world) (ws : N) (h : hub) :
  connect W ws h = (Ok (mk_user_id ws), connect_state W h ws, [Accepted ws]).
Proof. reflexivity. Qed.

Lemma inv_send_json (W : world) (ws : N) (data : WSMessage) (P : hub → Prop) :
  (∀ h, P h → hub_inv h) →
  triple P (send_json W ws data) (λ _, hub_inv) hub_inv.
Proof.
  intros HP h Hh. rewrite send_json_run. by apply inv_drop_failed, HP.
Qed.

Lemma inv_disconnect (ws : N) :
  triple hub_inv (disconnect ws) (λ _, hub_inv) hub_inv.
Proof. intros h Hh. rewrite disconnect_run. by apply inv_disconnect_state. Qed.

Lemma is_authenticated_alter (f : conn_info → conn_info) (ws ws' : N)
    (h : hub) :
  (∀ info, authenticated (f info) = authenticated info) →
  is_authenticated (set_connections (alter f ws) h) ws'
  = is_authenticated h ws'.
Proof.
  intros Hf. unfold is_authenticated. simpl. rewrite lookup_alter.
  destruct (decide (ws = ws')) as [<-|]; [|done].
  destruct (_connections h !! ws); simpl; [apply Hf | done].
Qed.

Lemma inv_update_last_seen (W : world) (ws : N) :
  triple hub_inv (update_last_seen W ws) (λ _, hub_inv) hub_inv.
Proof. apply triple_modify. intros h Hh. by apply inv_alter. Qed.

Lemma inv_handle_auth (W : world) (ws : N) (token : string) :
  triple hub_inv (handle_auth W ws token) (λ _, hub_inv) hub_inv.
Proof.
  unfold handle_auth. eapply triple_bind; [apply triple_get|].
  intros h0. simpl. destruct (validate_token h0 token).
  - eapply triple_bind.
    { apply (triple_modify _ _ (λ _, hub_inv)). intros h [Hh _].
      by apply inv_alter. }
    intros ?. eapply triple_bind; [apply triple_get|]. intros h1. simpl.
    eapply triple_bind; [apply inv_send_json; by intros ? [? _]|].
    intros ?. by apply triple_ret.
  - eapply triple_bind; [apply inv_send_json; by intros ? [? _]|].
    intros ?. by apply triple_ret.
Qed.

Lemma inv_subscribe (ws : N) (channel : string) :
  triple (λ h, hub_inv h ∧ is_authenticated h ws = true)
    (subscribe ws channel)
    (λ _ h, hub_inv h ∧ is_authenticated h ws = true)
    hub_inv.
Proof.
  intros h [Hinv Ha]. unfold subscribe, bind, get_hub. simpl.
  pose proof (inv_subscribe_state h ws channel Ha Hinv) as Hs.
  unfold subscribe_state in Hs.
  destruct (_connections h !! ws) as [info|] eqn:Hc; simpl; [|done].
  destruct (_subscriptions h !! user_id info) as [chans|] eqn:Hch; simpl;
    [|done].
  split; [done|]. unfold is_authenticated in *. simpl. by rewrite Hc in *.
Qed.

Lemma inv_handle_subscribe (W : world) (ws : N) (channels : list string) :
  triple (λ h, hub_inv h ∧ is_authenticated h ws = true)
    (handle_subscribe W ws channels) (λ _, hub_inv) hub_inv.
Proof.
  unfold handle_subscribe. eapply triple_bind.
  - unfold for_each. apply triple_for_fold with (E := hub_inv).
    intros [] channel. eapply triple_bind; [apply inv_subscribe|].
    intros b. by apply triple_ret.
  - intros ?. apply inv_send_json. by intros ? [? _].
Qed.

Lemma inv_websocket_close (W : world) (ws : N) (code : Z) :
  triple hub_inv (websocket_close W ws code) (λ _, hub_inv) hub_inv.
Proof.
  unfold websocket_close. eapply triple_bind; [apply triple_emit|].
  intros ?. destruct (close_ok W ws); [by apply triple_ret|by apply triple_raise].
Qed.

Lemma inv_handle_frame (W : world) (ws : N) (data : pyval) :
  triple hub_inv (handle_frame W ws data) (λ _, hub_inv) hub_inv.
Proof.
  unfold handle_frame.
  eapply triple_bind; [apply inv_update_last_seen|]. intros ?.
  eapply triple_bind; [apply triple_lift|]. intros msg_type.
  destruct (eq_str msg_type "auth").
  { eapply triple_bind; [apply triple_lift|]. intros token.
    eapply triple_bind; [apply inv_handle_auth|]. intros ?.
    by apply triple_ret. }
  destruct (eq_str msg_type "ping").
  { eapply triple_bind; [apply triple_lift|]. intros ts.
    eapply triple_bind; [by apply inv_send_json|]. intros ?.
    by apply triple_ret. }
  destruct (eq_str msg_type "subscribe"); [|by apply triple_ret].
  eapply triple_bind; [apply triple_get|]. intros h0. simpl.
  destruct (is_authenticated h0 ws) eqn:Ha; simpl.
  - eapply triple_bind.
    { eapply triple_weaken; [apply (triple_lift (λ h, hub_inv h ∧ h0 = h))|..].
      - done.
      - intros ? h Hh. exact Hh.
      - by intros h [Hh _]. }
    intros channels. eapply triple_bind.
    { eapply triple_weaken; [apply inv_handle_subscribe|..]; try done.
      intros h [Hh <-]. by split. }
    intros ?. by apply triple_ret.
  - eapply triple_bind.
    { eapply triple_weaken; [apply inv_websocket_close|..]; try done.
      by intros h [Hh _]. }
    intros ?. by apply triple_ret.
Qed.

Lemma inv_broadcast (W : world) (data : WSMessage) (channel : string) :
  triple hub_inv (broadcast W data channel) (λ _, hub_inv) hub_inv.
Proof.
  intros h Hh. rewrite broadcast_run.
  apply inv_foldl; [|done]. intros. by apply inv_drop_failed.
Qed.

Lemma prune_run (W : world) (timeout : float) (h : hub) :
  prune_stale_connections W timeout h
  = (Ok (Z.of_nat (length (stale_sockets (time W) timeout h))),
     foldl disconnect_state h (stale_sockets (time W) timeout h),
     (λ ws, Closed ws 1000) <$> stale_sockets (time W) timeout h).
Proof.
  unfold prune_stale_connections, bind at 1, get_hub. simpl.
  generalize (stale_sockets (time W) timeout h) as l. intros l.
  assert (∀ h0,
    for_each l (λ ws,
      let! _ := try_except (websocket_close W ws 1000) (λ _, ret tt) in
      disconnect ws) h0
    = (Ok tt, foldl disconnect_state h0 l, (λ ws, Closed ws 1000) <$> l)) as Hl.
  { induction l as [|ws l IH]; intros h0; [done|].
    unfold for_each in *. simpl. unfold bind at 1.
    assert ((let! _ := try_except (websocket_close W ws 1000) (λ _, ret tt) in
             disconnect ws) h0
            = (Ok tt, disconnect_state h0 ws, [Closed ws 1000])) as ->.
    { unfold bind, try_except, websocket_close, bind, emit.
      destruct (close_ok W ws); simpl; by rewrite disconnect_run. }
    by rewrite IH. }
  unfold bind. rewrite Hl. simpl. by rewrite app_nil_r.
Qed.

Lemma inv_prune (W : world) (timeout : float) :
  triple hub_inv (prune_stale_connections W timeout) (λ _, hub_inv) hub_inv.
Proof.
  intros h Hh. rewrite prune_run.
  apply inv_foldl; [|done]. intros. by apply inv_disconnect_state.
Qed.

(** What a [triple] says of the final hub, whatever the outcome. *)
Lemma triple_final {A} (m : M A) (h : hub) :
  triple hub_inv m (λ _, hub_inv) hub_inv → hub_inv h → hub_inv (final (m h)).
Proof.
  intros Hm Hh. specialize (Hm h Hh). unfold final.
  by destruct (m h) as [[[a|e] h1] t1].
Qed.

Theorem reachable_inv (h : hub) : reachable h → hub_inv h.
Proof.
  induction 1.
  - apply inv_init.
  - rewrite connect_run. by apply inv_connect_state.
  - by apply triple_final; [apply inv_handle_frame|].
  - by apply triple_final; [apply inv_disconnect|].
  - by apply triple_final; [apply inv_broadcast|].
  - by apply triple_final; [apply inv_prune|].
  - by apply inv_set_valid_tokens.
Qed.

End Reachable.

(* ===================================================================== *)
(** ** Broadcast *)
(* ===================================================================== *)

Section BroadcastFacts.
Import Py ConnectionManager Endpoint.

Lemma elem_of_keys {V} (m : gmap N V) (ws : N) :
  ws ∈ keys m ↔ is_Some (m !! ws).
Proof.
  unfold keys. rewrite list_elem_of_fmap. split.
  - intros ([k v] & -> & Hin). apply elem_of_map_to_list in Hin. eauto.
  - intros [v Hv]. exists (ws, v). split; [done|].
    by apply elem_of_map_to_list.
Qed.

Lemma elem_of_channel_targets (h : hub) (channel : string) (ws : N) :
  ws ∈ map_to_list (_subscriptions h) ≫= item_sockets channel
  ↔ subscribed h channel ws.
Proof.
  rewrite list_elem_of_bind. split.
  - intros ([uid chans] & Hin & Hitem). unfold item_sockets in Hin.
    simpl in Hin. destruct (chans !! channel) as [s|] eqn:Hc.
    + apply elem_of_elements in Hin. apply elem_of_map_to_list in Hitem.
      by exists uid, chans, s.
    + by apply elem_of_nil in Hin.
  - intros (uid & chans & s & Hs & Hc & Hin). exists (uid, chans). split.
    + unfold item_sockets. simpl. rewrite Hc. by apply elem_of_elements.
    + by apply elem_of_map_to_list.
Qed.

Lemma NoDup_channel_targets (h : hub) (channel : string) :
  hub_wf h → NoDup (map_to_list (_subscriptions h) ≫= item_sockets channel).
Proof.
  intros Hwf. apply NoDup_bind.
  - intros [uid1 chans1] [uid2 chans2] ws H1 H2 Hin1 Hin2.
    apply elem_of_map_to_list in H1, H2.
    unfold item_sockets in Hin1, Hin2. simpl in *.
    destruct (chans1 !! channel) as [s1|] eqn:Hc1;
      [|by apply elem_of_nil in Hin1].
    destruct (chans2 !! channel) as [s2|] eqn:Hc2;
      [|by apply elem_of_nil in Hin2].
    apply elem_of_elements in Hin1, Hin2.
    pose proof (wf_members h Hwf _ _ _ _ _ H1 Hc1 Hin1) as <-.
    pose proof (wf_members h Hwf _ _ _ _ _ H2 Hc2 Hin2) as E.
    rewrite <- E in H2. by simplify_eq.
  - intros [uid chans] _. unfold item_sockets. simpl.
    destruct (chans !! channel); [apply NoDup_elements | apply NoDup_nil_2].
  - apply NoDup_map_to_list.
Qed.

Lemma attempted_send_event (W : world) (data : WSMessage) (ws : N)
    (t : list event) :
  attempted (send_event W data ws :: t) = ws :: attempted t.
Proof. unfold send_event. by destruct (send_ok W ws). Qed.

Lemma attempted_send_events (W : world) (data : WSMessage) (l : list N) :
  attempted (send_event W data <$> l) = l.
Proof.
  induction l as [|ws l IH]; [done|].
  by rewrite fmap_cons, attempted_send_event, IH.
Qed.

Lemma delivered_send_event (W : world) (data : WSMessage) (ws : N)
    (t : list event) :
  delivered (send_event W data ws :: t)
  = if send_ok W ws then ws :: delivered t else delivered t.
Proof. unfold send_event. by destruct (send_ok W ws). Qed.

Lemma delivered_send_events (W : world) (data : WSMessage) (l : list N) :
  delivered (send_event W data <$> l) = filter (λ ws, send_ok W ws = true) l.
Proof.
  induction l as [|ws l IH]; [done|].
  rewrite fmap_cons, delivered_send_event, IH, filter_cons.
  destruct (send_ok W ws) eqn:Hok.
  - by rewrite decide_True.
  - by rewrite decide_False.
Qed.

(** C8.  A broadcast on the wildcard channel calls [send_json] on every
    live connection, whatever it is subscribed to; a broadcast on any
    other channel calls it on exactly the connections in that channel's
    subscriber set, so that a connection subscribed to other channels
    only gets nothing.  No connection is tried twice. *)
Theorem broadcast_reaches_channel (W : world) (data : WSMessage)
    (channel : string) (h : hub) :
  hub_wf h →
  NoDup (attempted (trace (broadcast W data channel h)))
  ∧ (channel = "*" →
     ∀ ws, ws ∈ attempted (trace (broadcast W data channel h))
           ↔ is_Some (_connections h !! ws))
  ∧ (channel ≠ "*" →
     ∀ ws, ws ∈ attempted (trace (broadcast W data channel h))
           ↔ subscribed h channel ws).
Proof.
  intros Hwf. rewrite broadcast_run. unfold trace. simpl.
  rewrite attempted_send_events. unfold targets.
  destruct (String.eqb channel "*") eqn:Hch.
  - apply String.eqb_eq in Hch. split; [apply NoDup_fst_map_to_list|].
    split; [|done]. intros _ ws. apply elem_of_keys.
  - apply String.eqb_neq in Hch. split; [by apply NoDup_channel_targets|].
    split; [done|]. intros _ ws. apply elem_of_channel_targets.
Qed.

(** The integer a broadcast returns is the number of sockets it called
    [send_json] on, and the frames went to those of them whose transport
    took the frame. *)
Lemma broadcast_returns_attempts (W : world) (data : WSMessage)
    (channel : string) (h : hub) :
  result (broadcast W data channel h)
  = Ok (Z.of_nat (length (attempted (trace (broadcast W data channel h)))))
  ∧ delivered (trace (broadcast W data channel h))
    = filter (λ ws, send_ok W ws = true)
        (attempted (trace (broadcast W data channel h))).
Proof.
  rewrite broadcast_run. unfold result, trace. simpl.
  by rewrite attempted_send_events, delivered_send_events.
Qed.

Lemma connections_foldl_drop_failed (W : world) (l : list N) (h : hub)
    (ws : N) :
  _connections (foldl (drop_failed W) h l) !! ws
  = if decide (ws ∈ l ∧ send_ok W ws = false) then None
    else _connections h !! ws.
Proof.
  revert h. induction l as [|x l IH]; intros h; cbn [foldl].
  - rewrite decide_False; [done|]. intros [Hin _]. by apply elem_of_nil in Hin.
  - rewrite IH. unfold drop_failed at 1.
    destruct (decide (ws ∈ l ∧ send_ok W ws = false)) as [[Hin Hok]|Hn].
    + rewrite decide_True; [done|]. split; [by right|done].
    + destruct (send_ok W x) eqn:Hx.
      * destruct (decide (ws ∈ x :: l ∧ send_ok W ws = false))
          as [[Hin Hok]|Hn']; [|done].
        apply elem_of_cons in Hin as [->|Hin]; [congruence|].
        exfalso. by apply Hn.
      * rewrite connections_disconnect_state.
        destruct (decide (x = ws)) as [->|Hne].
        -- rewrite lookup_delete_eq. rewrite decide_True; [done|].
           split; [by left|done].
        -- rewrite lookup_delete_ne by done.
           rewrite decide_False; [done|]. intros [Hin Hok].
           apply elem_of_cons in Hin as [->|Hin]; [done|]. by apply Hn.
Qed.

(** The parts of C1 that the code meets: a socket whose delivery fails is
    disconnected, the sockets whose delivery succeeds stay, and every
    target is tried whatever happened to the ones before it. *)
Lemma broadcast_absorbs_failures (W : world) (data : WSMessage)
    (channel : string) (h : hub) (ws : N) :
  (∃ n, result (broadcast W data channel h) = Ok n)
  ∧ attempted (trace (broadcast W data channel h)) = targets h channel
  ∧ (ws ∈ targets h channel → send_ok W ws = false →
     _connections (final (broadcast W data channel h)) !! ws = None)
  ∧ (send_ok W ws = true →
     _connections (final (broadcast W data channel h)) !! ws
     = _connections h !! ws).
Proof.
  rewrite broadcast_run. unfold result, trace, final. simpl.
  rewrite attempted_send_events. split; [by eexists|]. split; [done|].
  rewrite connections_foldl_drop_failed. split.
  - intros Hin Hok. by rewrite decide_True.
  - intros Hok. rewrite decide_False; [done|]. intros [_ Hf]. congruence.
Qed.

(** C1, at the input where the code departs from it: one connection whose
    transport is down.  [broadcast] returns 1 although no frame was
    delivered; the connection is disconnected. *)
Theorem broadcast_counts_failed_delivery :
  result (broadcast Samples.W_down Samples.msg "*" Samples.hub_one) = Ok 1
  ∧ attempted (trace (broadcast Samples.W_down Samples.msg "*" Samples.hub_one))
    = [7%N]
  ∧ delivered (trace (broadcast Samples.W_down Samples.msg "*" Samples.hub_one))
    = []
  ∧ _connections (final (broadcast Samples.W_down Samples.msg "*"
                           Samples.hub_one)) = ∅.
Proof. repeat split; vm_compute; reflexivity. Qed.

(** Two of three connections take the frame and the count is three. *)
Example broadcast_counts_three :
  result (broadcast Samples.W_7_down Samples.msg "*" Samples.hub_three) = Ok 3
  ∧ length (delivered (trace (broadcast Samples.W_7_down Samples.msg "*"
                                Samples.hub_three))) = 2%nat.
Proof. split; vm_compute; reflexivity. Qed.

End BroadcastFacts.

Section BroadcastWitness.
Import Py ConnectionManager Endpoint.

Lemma hub_three_reachable : reachable Samples.hub_three.
Proof.
  unfold Samples.hub_three, Samples.join.
  repeat (first [apply reach_connect | apply reach_frame | apply reach_init]).
Qed.

Lemma broadcast_reaches_channel_witness :
  NoDup (attempted (trace (broadcast Samples.W_up Samples.msg "messages"
                             Samples.hub_three)))
  ∧ (∀ ws, ws ∈ attempted (trace (broadcast Samples.W_up Samples.msg "messages"
                                     Samples.hub_three))
           ↔ subscribed Samples.hub_three "messages" ws)
  ∧ (∀ ws, ws ∈ attempted (trace (broadcast Samples.W_up Samples.msg "*"
                                     Samples.hub_three))
           ↔ is_Some (_connections Samples.hub_three !! ws)).
Proof.
  pose proof (inv_wf _ (reachable_inv _ hub_three_reachable)) as Hwf.
  destruct (broadcast_reaches_channel Samples.W_up Samples.msg "messages"
              Samples.hub_three Hwf) as (Hnd & _ & Hch).
  destruct (broadcast_reaches_channel Samples.W_up Samples.msg "*"
              Samples.hub_three Hwf) as (_ & Hall & _).
  split; [exact Hnd|]. split; [by apply Hch | by apply Hall].
Defined.

(** On the sample hub a broadcast on [messages] goes to socket 7 alone and
    a broadcast on the wildcard to all three. *)
Example broadcast_messages_sample :
  attempted (trace (broadcast Samples.W_up Samples.msg "messages"
                      Samples.hub_three)) = [7%N]
  ∧ length (attempted (trace (broadcast Samples.W_up Samples.msg "*"
                                Samples.hub_three))) = 3%nat.
Proof. split; vm_compute; reflexivity. Qed.

End BroadcastWitness.

(* ===================================================================== *)
(** ** Pruning *)
(* ===================================================================== *)

Section PruneFacts.
Import Py ConnectionManager Endpoint.

Lemma closed_close_events (l : list N) :
  closed ((λ ws, Closed ws 1000) <$> l) = l.
Proof.
  induction l as [|ws l IH]; [done|].
  rewrite fmap_cons. change (closed (Closed ws 1000 :: ?t)) with (ws :: closed t).
  by rewrite IH.
Qed.

Lemma elem_of_stale_sockets (now timeout : float) (h : hub) (ws : N) :
  ws ∈ stale_sockets now timeout h
  ↔ ∃ info, _connections h !! ws = Some info
            ∧ is_stale now timeout info = true.
Proof.
  unfold stale_sockets. rewrite list_elem_of_fmap. split.
  - intros ([k info] & -> & Hin). apply list_elem_of_filter in Hin as [Hst Hin].
    apply elem_of_map_to_list in Hin. by exists info.
  - intros (info & Hc & Hst). exists (ws, info). split; [done|].
    apply list_elem_of_filter. split; [done|]. by apply elem_of_map_to_list.
Qed.

Lemma NoDup_stale_sockets (now timeout : float) (h : hub) :
  NoDup (stale_sockets now timeout h).
Proof.
  unfold stale_sockets. apply NoDup_fmap_fst.
  - intros k x1 x2 [_ H1]%list_elem_of_filter [_ H2]%list_elem_of_filter.
    apply elem_of_map_to_list in H1, H2. congruence.
  - apply NoDup_filter, NoDup_map_to_list.
Qed.

Lemma connections_foldl_disconnect (l : list N) (h : hub) (ws : N) :
  _connections (foldl disconnect_state h l) !! ws
  = if decide (ws ∈ l) then None else _connections h !! ws.
Proof.
  revert h. induction l as [|x l IH]; intros h; cbn [foldl].
  - rewrite decide_False; [done|]. apply not_elem_of_nil.
  - rewrite IH, connections_disconnect_state.
    destruct (decide (ws ∈ l)) as [Hin|Hn].
    + rewrite decide_True; [done|]. by right.
    + destruct (decide (x = ws)) as [->|Hne].
      * rewrite lookup_delete_eq, decide_True; [done|]. by left.
      * rewrite lookup_delete_ne by done. rewrite decide_False; [done|].
        intros [->|Hin]%elem_of_cons; done.
Qed.

Lemma subscriptions_foldl_disconnect_None (l : list N) (h : hub)
    (uid : string) :
  _subscriptions h !! uid = None →
  _subscriptions (foldl disconnect_state h l) !! uid = None.
Proof.
  revert h. induction l as [|x l IH]; intros h Hn; cbn [foldl]; [done|].
  apply IH. destruct (subscriptions_disconnect_state h x uid) as [H|H];
    congruence.
Qed.

Lemma subscriptions_foldl_disconnect (l : list N) (h : hub) (ws : N)
    (info : conn_info) :
  ws ∈ l → _connections h !! ws = Some info →
  _subscriptions (foldl disconnect_state h l) !! user_id info = None.
Proof.
  revert h. induction l as [|x l IH]; intros h Hin Hc; cbn [foldl].
  - by apply elem_of_nil in Hin.
  - destruct (decide (x = ws)) as [->|Hne].
    + apply subscriptions_foldl_disconnect_None.
      unfold disconnect_state. rewrite Hc. simpl. apply lookup_delete_eq.
    + apply elem_of_cons in Hin as [->|Hin]; [done|].
      apply IH; [done|].
      rewrite connections_disconnect_state. by rewrite lookup_delete_ne.
Qed.

(** C9.  [prune_stale_connections] calls [close] on exactly the
    connections with [now - last_seen > timeout], on each once, and
    disconnects them: their records and subscription dictionaries are
    gone.  Every other connection keeps its record.  The integer returned
    is the number of connections pruned. *)
Theorem prune_stale_connections_exact (W : world) (timeout : float) (h : hub) :
  (∀ ws, ws ∈ closed (trace (prune_stale_connections W timeout h))
         ↔ ∃ info, _connections h !! ws = Some info
                   ∧ is_stale (time W) timeout info = true)
  ∧ NoDup (closed (trace (prune_stale_connections W timeout h)))
  ∧ (∀ ws info,
       _connections h !! ws = Some info →
       if is_stale (time W) timeout info
       then _connections (final (prune_stale_connections W timeout h)) !! ws
            = None
            ∧ _subscriptions (final (prune_stale_connections W timeout h))
                !! user_id info = None
       else _connections (final (prune_stale_connections W timeout h)) !! ws
            = Some info)
  ∧ result (prune_stale_connections W timeout h)
    = Ok (Z.of_nat
            (length (closed (trace (prune_stale_connections W timeout h))))).
Proof.
  rewrite prune_run. unfold result, trace, final. simpl.
  rewrite closed_close_events. split; [apply elem_of_stale_sockets|].
  split; [apply NoDup_stale_sockets|]. split; [|done].
  intros ws info Hc. rewrite connections_foldl_disconnect.
  destruct (is_stale (time W) timeout info) eqn:Hst.
  - assert (ws ∈ stale_sockets (time W) timeout h) as Hin.
    { apply elem_of_stale_sockets. eauto. }
    rewrite decide_True by done. split; [done|].
    by apply subscriptions_foldl_disconnect with (ws := ws).
  - rewrite decide_False; [done|].
    intros (info' & Hc' & Hst')%elem_of_stale_sockets. congruence.
Qed.

(** With a timeout of 90 seconds, the connection last seen 120 seconds ago
    is pruned and the one last seen 10 seconds ago is retained. *)
Example prune_90_seconds :
  result (prune_stale_connections Samples.W_up 90%float Samples.hub_aged)
  = Ok 1
  ∧ closed (trace (prune_stale_connections Samples.W_up 90%float
                     Samples.hub_aged)) = [1%N]
  ∧ keys (_connections (final (prune_stale_connections Samples.W_up 90%float
                                 Samples.hub_aged))) = [2%N].
Proof. repeat split; vm_compute; reflexivity. Qed.

End PruneFacts.

(* ===================================================================== *)
(** ** Authentication and subscription *)
(* ===================================================================== *)

Section AuthFacts.
Import Py ConnectionManager Endpoint.

Lemma dump_auth_error (W : world) : dump W (auth_error W) = auth_error W.
Proof.
  unfold dump, auth_error. simpl.
  destruct (int_time W =? 0) eqn:E; [|done].
  apply Z.eqb_eq in E. by rewrite E.
Qed.

Lemma handle_auth_run (W : world) (ws : N) (token : string) (h : hub) :
  handle_auth W ws token h
  = if validate_token h token then
      (Ok true,
       drop_failed W (set_connections (alter mark_authenticated ws) h) ws,
       [send_event W (auth_ack W (get_connection_id h ws)) ws])
    else (Ok false, drop_failed W h ws, [send_event W (auth_error W) ws]).
Proof.
  unfold handle_auth, bind at 1, get_hub. simpl.
  destruct (validate_token h token).
  - unfold bind, set_authenticated, modify, get_hub. simpl.
    rewrite send_json_run. simpl.
    replace (get_connection_id (set_connections _ h) ws)
      with (get_connection_id h ws); [done|].
    unfold get_connection_id. simpl. rewrite lookup_alter, decide_True by done.
    by destruct (_connections h !! ws).
  - unfold bind. by rewrite send_json_run.
Qed.

Lemma drop_failed_lookup (W : world) (h : hub) (ws ws' : N) (info : conn_info) :
  _connections (drop_failed W h ws) !! ws' = Some info →
  _connections h !! ws' = Some info.
Proof.
  unfold drop_failed. destruct (send_ok W ws); [done|].
  rewrite connections_disconnect_state.
  destruct (decide (ws = ws')) as [<-|Hne].
  - by rewrite lookup_delete_eq.
  - by rewrite lookup_delete_ne.
Qed.

(** C7.  An [auth] frame whose token is not a valid token is answered
    with an error frame of code 401 and with no [close]; it changes no
    connection record, so a connection that was not authenticated is not
    authenticated after it, and when the error frame is delivered the hub
    is what it was.  A frame with a valid token marks the connection
    authenticated and is answered with an [auth_ack] frame. *)
Theorem handle_auth_answers (W : world) (ws : N) (token : string) (h : hub) :
  (validate_token h token = false →
   result (handle_auth W ws token h) = Ok false
   ∧ (∃ frame,
        type frame = TError
        ∧ payload frame = Some (PDict [("error", PStr "Invalid token");
                                       ("code", PInt 401)])
        ∧ trace (handle_auth W ws token h)
          = [if send_ok W ws then Sent ws frame else SendFailed ws frame])
   ∧ closed (trace (handle_auth W ws token h)) = []
   ∧ (send_ok W ws = true → final (handle_auth W ws token h) = h)
   ∧ (∀ ws' info,
        _connections (final (handle_auth W ws token h)) !! ws' = Some info →
        _connections h !! ws' = Some info)
   ∧ (is_authenticated h ws = false →
      is_authenticated (final (handle_auth W ws token h)) ws = false))
  ∧ (validate_token h token = true →
     is_Some (_connections h !! ws) → send_ok W ws = true →
     result (handle_auth W ws token h) = Ok true
     ∧ is_authenticated (final (handle_auth W ws token h)) ws = true
     ∧ ∃ frame,
         type frame = TAuthAck
         ∧ trace (handle_auth W ws token h) = [Sent ws frame]).
Proof.
  rewrite handle_auth_run. unfold result, trace, final. split.
  - intros ->. simpl. split; [done|]. split.
    { exists (auth_error W). unfold send_event. rewrite dump_auth_error.
      split; [done|]. split; [done|]. by destruct (send_ok W ws). }
    split. { unfold send_event. by destruct (send_ok W ws). }
    split. { unfold drop_failed. by intros ->. }
    split. { intros ws' info. apply drop_failed_lookup. }
    intros Hn. destruct (is_authenticated (drop_failed W h ws) ws) eqn:Ha;
      [|done].
    apply is_authenticated_lookup in Ha as (info & Hc & Ha).
    apply drop_failed_lookup in Hc.
    assert (is_authenticated h ws = true) as Ht; [|congruence].
    apply is_authenticated_lookup. eauto.
  - intros -> [info Hc] Hok. simpl. split; [done|].
    unfold drop_failed, send_event. rewrite Hok. split.
    + apply is_authenticated_lookup. exists (mark_authenticated info).
      split; [|done]. simpl. by rewrite lookup_alter, decide_True, Hc.
    + eexists. split; [|reflexivity]. unfold dump, auth_ack. simpl.
      by destruct (int_time W =? 0).
Qed.

Lemma handle_auth_answers_witness :
  (result (handle_auth Samples.W_up 7 "wrong" Samples.hub_one) = Ok false
   ∧ final (handle_auth Samples.W_up 7 "wrong" Samples.hub_one)
     = Samples.hub_one
   ∧ is_authenticated
       (final (handle_auth Samples.W_up 7 "wrong" Samples.hub_one)) 7 = false)
  ∧ (result (handle_auth Samples.W_up 7 "your_api_token" Samples.hub_one)
     = Ok true
     ∧ is_authenticated
         (final (handle_auth Samples.W_up 7 "your_api_token" Samples.hub_one))
         7 = true).
Proof.
  destruct (handle_auth_answers Samples.W_up 7 "wrong" Samples.hub_one)
    as [Hbad _].
  destruct (handle_auth_answers Samples.W_up 7 "your_api_token"
              Samples.hub_one) as [_ Hgood].
  split.
  - destruct Hbad as (Hr & _ & _ & Hsame & _ & Hstay);
      [vm_compute; reflexivity|].
    split; [exact Hr|]. split; [apply Hsame | apply Hstay]; reflexivity.
  - destruct Hgood as (Hr & Ha & _);
      [vm_compute; reflexivity | vm_compute; eauto | reflexivity |].
    split; [exact Hr | exact Ha].
Defined.

(** The turn of the receive loop for a [subscribe] frame from a connection
    that is not authenticated. *)
Lemma handle_frame_unauthenticated_subscribe (W : world) (ws : N)
    (data : pyval) (h : hub) :
  is_authenticated h ws = false →
  get data "type" PNone = Ok (PStr "subscribe") →
  handle_frame W ws data h
  = (if close_ok W ws then Ok Return else Raise (TransportError "close"),
     final (update_last_seen W ws h),
     [Closed ws 4008]).
Proof.
  intros Ha Hget. unfold handle_frame, bind at 1, update_last_seen.
  unfold modify at 1. unfold bind at 1. rewrite Hget. simpl.
  unfold bind at 1, get_hub.
  rewrite is_authenticated_alter by done. rewrite Ha. simpl.
  unfold bind, websocket_close, bind, emit.
  by destruct (close_ok W ws).
Qed.

(** C6.  In every hub the application can reach, the members of the
    subscriber sets are authenticated connections.  A [subscribe] frame
    from a connection that is not authenticated, whatever channels it
    names, is answered by closing the socket with code 4008 and leaving
    the receive loop; the connection is in no subscriber set before or
    after, and the subscriptions are what they were. *)
Theorem unauthenticated_subscribe_rejected (W : world) (ws : N) (data : pyval)
    (h : hub) :
  reachable h →
  is_authenticated h ws = false →
  get data "type" PNone = Ok (PStr "subscribe") →
  trace (handle_frame W ws data h) = [Closed ws 4008]
  ∧ result (handle_frame W ws data h) ≠ Ok Continue
  ∧ _subscriptions (final (handle_frame W ws data h)) = _subscriptions h
  ∧ (∀ channel, ¬ subscribed h channel ws)
  ∧ (∀ channel, ¬ subscribed (final (handle_frame W ws data h)) channel ws)
  ∧ subscribers_authenticated (final (handle_frame W ws data h)).
Proof.
  intros Hr Ha Hget.
  pose proof (reachable_inv _ (reach_frame W ws data h Hr)) as [_ Hauth'].
  pose proof (reachable_inv _ Hr) as [_ Hauth].
  assert (∀ channel, ¬ subscribed h channel ws) as Hnot.
  { intros channel Hsub. apply Hauth in Hsub. congruence. }
  rewrite handle_frame_unauthenticated_subscribe in * by done.
  unfold trace, result, final in *. simpl in *.
  split; [done|]. split; [by destruct (close_ok W ws)|]. split; [done|].
  split; [done|]. split; [|done].
  intros channel (uid & chans & s & Hs & Hc & Hin). simpl in Hs.
  apply (Hnot channel). by exists uid, chans, s.
Qed.

Lemma hub_one_reachable : reachable Samples.hub_one.
Proof. apply reach_connect, reach_init. Qed.

Lemma unauthenticated_subscribe_rejected_witness :
  trace (handle_frame Samples.W_up 7 (Samples.subscribe_frame ["messages"])
           Samples.hub_one) = [Closed 7 4008]
  ∧ result (handle_frame Samples.W_up 7 (Samples.subscribe_frame ["messages"])
              Samples.hub_one) ≠ Ok Continue.
Proof.
  destruct (unauthenticated_subscribe_rejected Samples.W_up 7
              (Samples.subscribe_frame ["messages"]) Samples.hub_one)
    as (Ht & Hres & _).
  - apply hub_one_reachable.
  - reflexivity.
  - reflexivity.
  - split; [exact Ht | exact Hres].
Defined.

(** The same frame once the connection has authenticated puts it in the
    subscriber set of the channel. *)
Example authenticated_subscribe_sample :
  subscribed (Samples.join 7 ["messages"] init) "messages" 7.
Proof.
  exists (mk_user_id 7), {[ "messages" := {[ 7%N ]} ]}, {[ 7%N ]}.
  split; [|split].
  - vm_compute. reflexivity.
  - vm_compute. reflexivity.
  - by apply elem_of_singleton.
Qed.

(** However the receive loop ends, the endpoint leaves with the socket
    disconnected. *)
Lemma websocket_events_run (W0 : world) (ws : N)
    (frames : list (world * pyval)) (h : hub) :
  ∃ h1 t, websocket_events W0 ws frames h = (Ok tt, disconnect_state h1 ws, t).
Proof.
  unfold websocket_events, bind at 1. rewrite connect_run.
  unfold bind at 1, try_except.
  destruct (receive_loop ws frames (connect_state W0 h ws))
    as [[[[]|e] h1] t1]; cbn [ret]; rewrite disconnect_run; by eexists _, _.
Qed.

Lemma websocket_events_ends_disconnected (W0 : world) (ws : N)
    (frames : list (world * pyval)) (h : hub) :
  result (websocket_events W0 ws frames h) = Ok tt
  ∧ _connections (final (websocket_events W0 ws frames h)) !! ws = None.
Proof.
  destruct (websocket_events_run W0 ws frames h) as (h1 & t & ->).
  unfold result, final. simpl. split; [done|].
  by rewrite connections_disconnect_state, lookup_delete_eq.
Qed.

End AuthFacts.

(* ===================================================================== *)
(** ** The connection registry: lifecycle and subscriptions *)
(* ===================================================================== *)

Section RegistryFacts.
Import Py ConnectionManager Endpoint.

(** In a well-formed hub a socket without record has no subscription
    dictionary either. *)
Lemma wf_no_record_no_subscriptions (h : hub) (ws : N) :
  hub_wf h → _connections h !! ws = None →
  _subscriptions h !! mk_user_id ws = None.
Proof.
  intros Hwf Hc. destruct (_subscriptions h !! mk_user_id ws) as [chans|] eqn:Hs;
    [|done].
  destruct (wf_owner h Hwf _ _ Hs) as (ws' & Heq & [info Hc']).
  apply mk_user_id_inj in Heq as <-. congruence.
Qed.

(** [connect] followed at once by [disconnect] gives back the hub as it
    was, for a socket that had no record: no connection and no
    subscription entry is left over. *)
Theorem connect_then_disconnect (W : world) (ws : N) (h : hub) :
  hub_wf h → _connections h !! ws = None →
  final (disconnect ws (final (connect W ws h))) = h.
Proof.
  intros Hwf Hc. rewrite connect_run. unfold final. cbn [fst snd].
  rewrite disconnect_run. cbn [fst snd].
  unfold disconnect_state, connect_state. simpl. rewrite lookup_insert_eq.
  apply hub_eq; simpl; [| |done].
  - rewrite delete_insert_eq. by apply delete_id.
  - rewrite delete_insert_eq. apply delete_id.
    by apply wf_no_record_no_subscriptions.
Qed.

Lemma connect_then_disconnect_witness :
  final (disconnect 7 (final (connect Samples.W_up 7 init))) = init.
Proof.
  apply (connect_then_disconnect Samples.W_up 7 init).
  - apply inv_wf, inv_init.
  - reflexivity.
Defined.

(** [disconnect] never raises and touches no socket; it removes the
    record and the subscription dictionary of its socket and of no other,
    and a second [disconnect] of the same socket changes nothing. *)
Theorem disconnect_removes_only_this (ws : N) (h : hub) :
  hub_wf h →
  result (disconnect ws h) = Ok tt
  ∧ trace (disconnect ws h) = []
  ∧ _connections (final (disconnect ws h)) !! ws = None
  ∧ _subscriptions (final (disconnect ws h)) !! mk_user_id ws = None
  ∧ (∀ ws', ws' ≠ ws →
       _connections (final (disconnect ws h)) !! ws' = _connections h !! ws'
       ∧ _subscriptions (final (disconnect ws h)) !! mk_user_id ws'
         = _subscriptions h !! mk_user_id ws')
  ∧ final (disconnect ws (final (disconnect ws h))) = final (disconnect ws h).
Proof.
  intros Hwf. rewrite (disconnect_run ws h). unfold result, trace, final.
  cbn [fst snd]. rewrite disconnect_run. cbn [fst snd].
  split; [done|]. split; [done|].
  assert (_connections (disconnect_state h ws) !! ws = None) as Hgone.
  { by rewrite connections_disconnect_state, lookup_delete_eq. }
  split; [done|]. split; [|split].
  - unfold disconnect_state.
    destruct (_connections h !! ws) as [info|] eqn:Hc; simpl.
    + rewrite <- (wf_user_id h Hwf _ _ Hc). apply lookup_delete_eq.
    + by apply wf_no_record_no_subscriptions.
  - intros ws' Hne. rewrite connections_disconnect_state.
    rewrite lookup_delete_ne by done. split; [done|].
    unfold disconnect_state.
    destruct (_connections h !! ws) as [info|] eqn:Hc; simpl; [|done].
    apply lookup_delete_ne. rewrite (wf_user_id h Hwf _ _ Hc).
    intros Heq. by apply mk_user_id_inj in Heq.
  - unfold disconnect_state at 1. by rewrite Hgone.
Qed.

Lemma disconnect_removes_only_this_witness :
  _connections (final (disconnect 7 Samples.hub_three)) !! 7%N = None
  ∧ _connections (final (disconnect 7 Samples.hub_three)) !! 8%N
    = _connections Samples.hub_three !! 8%N.
Proof.
  destruct (disconnect_removes_only_this 7 Samples.hub_three)
    as (_ & _ & Hgone & _ & Hother & _).
  - apply inv_wf, reachable_inv, hub_three_reachable.
  - split; [exact Hgone|]. by apply Hother.
Defined.

(** [subscribe] as a change of the hub.  In a well-formed hub it never
    raises: the dictionary it indexes is there. *)
Lemma subscribe_run (ws : N) (channel : string) (h : hub) :
  hub_wf h →
  subscribe ws channel h
  = (Ok (bool_decide (is_Some (_connections h !! ws))),
     subscribe_state h ws channel, []).
Proof.
  intros Hwf. unfold subscribe, subscribe_state, bind, get_hub. simpl.
  destruct (_connections h !! ws) as [info|] eqn:Hc; simpl; [|done].
  destruct (wf_has_subs h Hwf _ _ Hc) as [chans Hs]. by rewrite Hs.
Qed.

Lemma subscribed_subscribe_state (h : hub) (ws : N) (channel : string)
    (channel' : string) (ws' : N) :
  hub_wf h → is_Some (_connections h !! ws) →
  subscribed (subscribe_state h ws channel) channel' ws'
  ↔ subscribed h channel' ws' ∨ (channel' = channel ∧ ws' = ws).
Proof.
  intros Hwf [info Hc]. unfold subscribe_state. rewrite Hc.
  destruct (wf_has_subs h Hwf _ _ Hc) as [chans Hs]. rewrite Hs.
  unfold subscribed. simpl. split.
  - intros (uid & chans' & s & Hs' & Hc' & Hin).
    destruct (decide (user_id info = uid)) as [<-|Hne].
    + rewrite lookup_insert_eq in Hs'. injection Hs' as <-.
      destruct (decide (channel = channel')) as [<-|Hnc].
      * rewrite lookup_insert_eq in Hc'. injection Hc' as <-.
        apply elem_of_union in Hin as [Hin|Hin].
        -- left. destruct (chans !! channel) as [s0|] eqn:Hs0; simpl in Hin.
           ++ by exists (user_id info), chans, s0.
           ++ by apply not_elem_of_empty in Hin.
        -- right. apply elem_of_singleton in Hin. by subst.
      * rewrite lookup_insert_ne in Hc' by done.
        left. by exists (user_id info), chans, s.
    + rewrite lookup_insert_ne in Hs' by done. left. by exists uid, chans', s.
  - intros [(uid & chans' & s & Hs' & Hc' & Hin) | [-> ->]].
    + destruct (decide (user_id info = uid)) as [<-|Hne].
      * assert (chans' = chans) as -> by congruence.
        destruct (decide (channel = channel')) as [<-|Hnc].
        -- eexists (user_id info), _, _. rewrite lookup_insert_eq.
           split; [done|]. rewrite lookup_insert_eq. split; [done|].
           rewrite Hc'. simpl. apply elem_of_union. by left.
        -- eexists (user_id info), _, s. rewrite lookup_insert_eq.
           split; [done|]. by rewrite lookup_insert_ne.
      * exists uid, chans', s. by rewrite lookup_insert_ne.
    + eexists (user_id info), _, _. rewrite lookup_insert_eq.
      split; [done|]. rewrite lookup_insert_eq. split; [done|].
      apply elem_of_union. right. by apply elem_of_singleton.
Qed.

(** [subscribe] on a live connection returns [True] and makes the socket
    a subscriber of the channel; every other membership, of this socket or
    of any other, is what it was.  On a socket without record it returns
    [False] and changes nothing. *)
Theorem subscribe_adds_only_this (ws : N) (channel : string) (h : hub) :
  hub_wf h →
  (is_Some (_connections h !! ws) →
   result (subscribe ws channel h) = Ok true
   ∧ trace (subscribe ws channel h) = []
   ∧ _connections (final (subscribe ws channel h)) = _connections h
   ∧ ∀ channel' ws',
       subscribed (final (subscribe ws channel h)) channel' ws'
       ↔ subscribed h channel' ws' ∨ (channel' = channel ∧ ws' = ws))
  ∧ (_connections h !! ws = None →
     result (subscribe ws channel h) = Ok false
     ∧ final (subscribe ws channel h) = h).
Proof.
  intros Hwf. rewrite subscribe_run by done. unfold result, trace, final.
  simpl. split.
  - intros Hlive. rewrite bool_decide_true by done.
    split; [done|]. split; [done|]. split.
    + unfold subscribe_state. destruct Hlive as [info ->].
      by destruct (_subscriptions h !! user_id info).
    + intros channel' ws'. by apply subscribed_subscribe_state.
  - intros Hc. unfold subscribe_state. rewrite Hc.
    rewrite bool_decide_false; [done|]. by intros [? ?].
Qed.

Lemma subscribe_adds_only_this_witness :
  subscribed (final (subscribe 9 "alerts" Samples.hub_three)) "alerts" 9
  ∧ final (subscribe 5 "alerts" Samples.hub_three) = Samples.hub_three.
Proof.
  destruct (subscribe_adds_only_this 9 "alerts" Samples.hub_three)
    as [Hlive _]; [apply inv_wf, reachable_inv, hub_three_reachable|].
  destruct (subscribe_adds_only_this 5 "alerts" Samples.hub_three)
    as [_ Hnone]; [apply inv_wf, reachable_inv, hub_three_reachable|].
  split.
  - destruct Hlive as (_ & _ & _ & Hsub); [vm_compute; eauto|].
    apply Hsub. by right.
  - by apply Hnone.
Defined.

Lemma unsubscribe_state_run (ws : N) (channel : string) (h : hub) :
  ∃ b, unsubscribe ws channel h = (Ok b, unsubscribe_state h ws channel, [])
       ∧ (b = true ↔
          ∃ info s, _connections h !! ws = Some info
                    ∧ default ∅ (_subscriptions h !! user_id info) !! channel
                      = Some s).
Proof.
  unfold unsubscribe, unsubscribe_state, bind, get_hub. simpl.
  destruct (_connections h !! ws) as [info|] eqn:Hc; simpl.
  - destruct (default ∅ (_subscriptions h !! user_id info) !! channel)
      as [s|] eqn:Hs; simpl.
    + exists true. split; [done|]. split; [|done]. intros _. eauto.
    + exists false. split; [done|]. split; [done|].
      intros (info' & s & [= <-] & Hs'). congruence.
  - exists false. split; [done|]. split; [done|]. by intros (? & ? & ? & ?).
Qed.

(** [unsubscribe] undoes [subscribe]: for a live connection whose
    dictionary has no entry for the channel, subscribing and then
    unsubscribing returns [True] and gives back the hub as it was. *)
Theorem subscribe_then_unsubscribe (ws : N) (channel : string) (h : hub) :
  hub_wf h → is_Some (_connections h !! ws) →
  (∀ chans, _subscriptions h !! mk_user_id ws = Some chans →
            chans !! channel = None) →
  result (unsubscribe ws channel (final (subscribe ws channel h))) = Ok true
  ∧ final (unsubscribe ws channel (final (subscribe ws channel h))) = h.
Proof.
  intros Hwf [info Hc] Hfree. rewrite subscribe_run by done.
  unfold final, result. cbn [fst snd].
  destruct (wf_has_subs h Hwf _ _ Hc) as [chans Hs].
  pose proof (wf_user_id h Hwf _ _ Hc) as Hu.
  assert (chans !! channel = None) as Hn.
  { apply Hfree. by rewrite <- Hu. }
  assert (subscribe_state h ws channel
          = set_subscriptions
              <[user_id info := <[channel := ∅ ∪ {[ ws ]}]> chans]> h) as Hst.
  { unfold subscribe_state. by rewrite Hc, Hs, Hn. }
  destruct (unsubscribe_state_run ws channel (subscribe_state h ws channel))
    as (b & Hrun & Hb).
  rewrite Hrun. cbn [fst snd]. split.
  - f_equal. apply Hb. rewrite Hst. simpl. exists info, (∅ ∪ {[ ws ]}).
    split; [done|]. rewrite lookup_insert_eq. simpl. apply lookup_insert_eq.
  - rewrite Hst. unfold unsubscribe_state. simpl. rewrite Hc.
    rewrite lookup_insert_eq. simpl. rewrite lookup_insert_eq.
    rewrite decide_True.
    2:{ apply set_eq. intros x.
        rewrite elem_of_difference, elem_of_union, elem_of_singleton.
        split; [intros [[Hx| ->] Hn']; [done|by destruct Hn']|].
        intros Hx. by apply not_elem_of_empty in Hx. }
    apply hub_eq; simpl; try done.
    rewrite insert_insert_eq, delete_insert_eq, (delete_id chans) by done.
    by apply insert_id.
Qed.

Lemma subscribe_then_unsubscribe_witness :
  final (unsubscribe 7 "alerts" (final (subscribe 7 "alerts" Samples.hub_three)))
  = Samples.hub_three.
Proof.
  apply (subscribe_then_unsubscribe 7 "alerts" Samples.hub_three).
  - apply inv_wf, reachable_inv, hub_three_reachable.
  - vm_compute. eauto.
  - intros chans Hs. vm_compute in Hs. injection Hs as <-.
    vm_compute. reflexivity.
Defined.

(** [get_connection_info] finds a connection by the identity [connect]
    gave it: it returns the record of the socket the identity was derived
    from, and nothing when that socket has no record. *)
Theorem get_connection_info_by_identity (ws : N) (h : hub) :
  hub_wf h → get_connection_info h (mk_user_id ws) = _connections h !! ws.
Proof.
  intros Hwf. unfold get_connection_info.
  set (l := filter _ _).
  assert (∀ p, p ∈ l → p.1 = ws ∧ _connections h !! ws = Some p.2) as Hl.
  { intros [k info] [Hu Hin]%list_elem_of_filter. simpl in *.
    apply elem_of_map_to_list in Hin.
    rewrite (wf_user_id h Hwf _ _ Hin) in Hu.
    apply mk_user_id_inj in Hu as <-. done. }
  destruct l as [|p l'] eqn:El; simpl.
  - destruct (_connections h !! ws) as [info|] eqn:Hc; [|done].
    assert ((ws, info) ∈ l) as Hin; [|rewrite El in Hin; by apply elem_of_nil in Hin].
    apply list_elem_of_filter. split.
    + simpl. by apply (wf_user_id h Hwf).
    + by apply elem_of_map_to_list.
  - destruct (Hl p) as [_ ->]; [by left|done].
Qed.

Lemma get_connection_info_by_identity_witness :
  get_connection_info Samples.hub_three (mk_user_id 8)
  = _connections Samples.hub_three !! 8%N.
Proof.
  apply (get_connection_info_by_identity 8 Samples.hub_three).
  apply inv_wf, reachable_inv, hub_three_reachable.
Defined.

(** After [prune_stale_connections] no connection is stale at the same
    clock and timeout: pruning again closes nothing, returns 0 and leaves
    the hub as it is. *)
Theorem prune_twice (W : world) (timeout : float) (h : hub) :
  stale_sockets (time W) timeout (final (prune_stale_connections W timeout h))
  = []
  ∧ prune_stale_connections W timeout
      (final (prune_stale_connections W timeout h))
    = (Ok 0, final (prune_stale_connections W timeout h), []).
Proof.
  assert (stale_sockets (time W) timeout
            (final (prune_stale_connections W timeout h)) = []) as Hnone.
  { apply elem_of_nil_inv. intros ws Hin.
    apply elem_of_stale_sockets in Hin as (info & Hc & Hst).
    rewrite prune_run in Hc. unfold final in Hc. simpl in Hc.
    rewrite connections_foldl_disconnect in Hc.
    destruct (decide (ws ∈ stale_sockets (time W) timeout h)) as [|Hn];
      [done|].
    apply Hn, elem_of_stale_sockets. eauto. }
  split; [done|]. rewrite (prune_run W timeout (final _)). by rewrite Hnone.
Qed.

(** In every hub the application can reach, the subscription dictionaries
    are exactly those of the live connections, and every member of a
    subscriber set is a live, authenticated connection. *)
Theorem reachable_subscriptions_live (h : hub) :
  reachable h →
  (∀ uid, is_Some (_subscriptions h !! uid)
          ↔ ∃ ws, uid = mk_user_id ws ∧ is_Some (_connections h !! ws))
  ∧ (∀ channel ws, subscribed h channel ws →
       is_Some (_connections h !! ws) ∧ is_authenticated h ws = true).
Proof.
  intros Hr. destruct (reachable_inv h Hr) as [Hwf Hauth]. split.
  - intros uid. split.
    + intros [chans Hs]. by eapply wf_owner.
    + intros (ws & -> & [info Hc]).
      rewrite <- (wf_user_id h Hwf _ _ Hc). by eapply wf_has_subs.
  - intros channel ws Hsub. specialize (Hauth _ _ Hsub). split; [|done].
    apply is_authenticated_lookup in Hauth as (info & Hc & _). eauto.
Qed.

Lemma reachable_subscriptions_live_witness :
  is_Some (_connections Samples.hub_three !! 7%N)
  ∧ is_authenticated Samples.hub_three 7 = true.
Proof.
  destruct (reachable_subscriptions_live Samples.hub_three) as [_ Hsub].
  - unfold Samples.hub_three, Samples.join.
    repeat (first [apply reach_connect | apply reach_frame | apply reach_init]).
  - apply (Hsub "messages").
    exists (mk_user_id 7), {[ "messages" := {[ 7%N ]} ]}, {[ 7%N ]}.
    split; [|split]; [vm_compute; reflexivity..|by apply elem_of_singleton].
Defined.

End RegistryFacts.

(* ===================================================================== *)
(** ** Subscribing, counting and broadcasting together *)
(* ===================================================================== *)

Section SubscribeBroadcast.
Import Py ConnectionManager Endpoint.

Lemma connections_subscribe_state (h : hub) (ws : N) (channel : string) :
  _connections (subscribe_state h ws channel) = _connections h.
Proof.
  unfold subscribe_state. destruct (_connections h !! ws) as [info|]; [|done].
  by destruct (_subscriptions h !! user_id info).
Qed.

Lemma is_authenticated_subscribe_state (h : hub) (ws ws' : N)
    (channel : string) :
  is_authenticated (subscribe_state h ws channel) ws' = is_authenticated h ws'.
Proof. unfold is_authenticated. by rewrite connections_subscribe_state. Qed.

Lemma is_authenticated_live (h : hub) (ws : N) :
  is_authenticated h ws = true → is_Some (_connections h !! ws).
Proof. intros (info & Hc & _)%is_authenticated_lookup. eauto. Qed.

Lemma subscribe_all_run (ws : N) (channels : list string) (h : hub) :
  hub_inv h → is_authenticated h ws = true →
  for_each channels (λ channel, let! _ := subscribe ws channel in ret tt) h
  = (Ok tt, foldl (λ h channel, subscribe_state h ws channel) h channels, [])
  ∧ hub_inv (foldl (λ h channel, subscribe_state h ws channel) h channels)
  ∧ is_authenticated
      (foldl (λ h channel, subscribe_state h ws channel) h channels) ws = true.
Proof.
  revert h. induction channels as [|c cs IH]; intros h Hinv Ha; [done|].
  destruct (IH (subscribe_state h ws c)) as (Hrun & Hinv' & Ha').
  { by apply inv_subscribe_state. }
  { by rewrite is_authenticated_subscribe_state. }
  split; [|done]. unfold for_each in *. cbn [for_fold foldl].
  unfold bind at 1. unfold bind at 1.
  rewrite subscribe_run by apply Hinv. cbn [ret]. by rewrite Hrun.
Qed.

Lemma subscribed_subscribe_all (ws : N) (channel : string)
    (channels : list string) (h : hub) :
  hub_inv h → is_authenticated h ws = true →
  channel ∈ channels ∨ subscribed h channel ws →
  subscribed (foldl (λ h channel, subscribe_state h ws channel) h channels)
    channel ws.
Proof.
  revert h. induction channels as [|c cs IH]; intros h Hinv Ha Hc.
  - destruct Hc as [Hin|]; [by apply elem_of_nil in Hin|done].
  - cbn [foldl]. apply IH.
    + by apply inv_subscribe_state.
    + by rewrite is_authenticated_subscribe_state.
    + destruct Hc as [[->|Hin]%elem_of_cons|Hsub]; [right|by left|right].
      * apply subscribed_subscribe_state;
          [apply Hinv|by apply is_authenticated_live|]. by right.
      * apply subscribed_subscribe_state;
          [apply Hinv|by apply is_authenticated_live|]. by left.
Qed.

Lemma handle_subscribe_run (W : world) (ws : N) (channels : list string)
    (h : hub) :
  hub_inv h → is_authenticated h ws = true →
  handle_subscribe W ws channels h
  = (Ok tt,
     drop_failed W
       (foldl (λ h channel, subscribe_state h ws channel) h channels) ws,
     [send_event W (subscribed_ack W channels) ws]).
Proof.
  intros Hinv Ha. destruct (subscribe_all_run ws channels h Hinv Ha) as [Hrun _].
  unfold handle_subscribe, bind at 1. rewrite Hrun. by rewrite send_json_run.
Qed.

(** Once [handle_subscribe] has run for an authenticated connection and
    its acknowledgement was delivered, a broadcast on any of the channels
    named calls [send_json] on that connection, and delivers the frame
    when its transport takes it. *)
Theorem subscribe_then_broadcast (W W' : world) (ws : N)
    (channels : list string) (channel : string) (data : WSMessage) (h : hub) :
  hub_inv h → is_authenticated h ws = true → send_ok W ws = true →
  channel ∈ channels → channel ≠ "*" →
  trace (handle_subscribe W ws channels h)
  = [Sent ws (dump W (subscribed_ack W channels))]
  ∧ ws ∈ attempted (trace (broadcast W' data channel
                             (final (handle_subscribe W ws channels h))))
  ∧ (send_ok W' ws = true →
     ws ∈ delivered (trace (broadcast W' data channel
                              (final (handle_subscribe W ws channels h))))).
Proof.
  intros Hinv Ha Hok Hin Hne. rewrite handle_subscribe_run by done.
  unfold trace at 1, final. cbn [fst snd]. unfold send_event at 1.
  rewrite Hok. split; [done|].
  unfold drop_failed. rewrite Hok.
  assert (ws ∈ targets (foldl (λ h channel, subscribe_state h ws channel)
                          h channels) channel) as Ht.
  { unfold targets. apply String.eqb_neq in Hne. rewrite Hne.
    apply elem_of_channel_targets. apply subscribed_subscribe_all; auto. }
  rewrite broadcast_run. unfold trace. cbn [snd].
  rewrite attempted_send_events, delivered_send_events. split; [done|].
  intros Hok'. by apply list_elem_of_filter.
Qed.

Lemma subscribe_then_broadcast_witness :
  9%N ∈ attempted
          (trace (broadcast Samples.W_up Samples.msg "messages"
                    (final (handle_subscribe Samples.W_up 9 ["messages"]
                              (final (handle_auth Samples.W_up 9
                                        "your_api_token"
                                        Samples.hub_three)))))).
Proof.
  eapply (subscribe_then_broadcast Samples.W_up Samples.W_up 9 ["messages"]
            "messages" Samples.msg).
  - apply triple_final; [apply inv_handle_auth|].
    apply reachable_inv, hub_three_reachable.
  - vm_compute. reflexivity.
  - reflexivity.
  - by left.
  - discriminate.
Defined.

Lemma get_subscribers_count_sum (channel : string)
    (items : list (string * gmap string (gset N))) (n : nat) :
  foldl (λ count (item : string * gmap string (gset N)),
      match item.2 !! channel with
      | Some s => (count + size s)%nat
      | None =>
          match item.2 !! "*" with
          | Some s => (count + size s)%nat
          | None => count
          end
      end) n items
  = (n + sum_list (item_count channel <$> items))%nat.
Proof.
  revert n. induction items as [|[uid chans] items IH]; intros n;
    cbn [foldl fmap list_fmap sum_list]; [lia|].
  rewrite IH. unfold item_count at 2. simpl.
  destruct (chans !! channel); [lia|]. destruct (chans !! "*"); lia.
Qed.

Lemma length_channel_targets (channel : string)
    (items : list (string * gmap string (gset N))) :
  length (items ≫= item_sockets channel)
  = sum_list ((λ item, length (item_sockets channel item)) <$> items).
Proof.
  induction items as [|item items IH]; [done|].
  change ((item :: items) ≫= item_sockets channel)
    with (item_sockets channel item ++ (items ≫= item_sockets channel)).
  rewrite length_app, IH. done.
Qed.

(** [get_subscribers_count] is never below the number of sockets a
    broadcast on the channel calls [send_json] on: it counts those, and
    for every connection that is not on the channel its subscription to
    the wildcard, which [broadcast] on a named channel does not serve.
    The two agree when no connection is subscribed to the wildcard. *)
Theorem subscribers_count_and_broadcast (W : world) (data : WSMessage)
    (channel : string) (h : hub) :
  channel ≠ "*" →
  (length (attempted (trace (broadcast W data channel h)))
   ≤ get_subscribers_count h channel)%nat
  ∧ ((∀ ws, ¬ subscribed h "*" ws) →
     get_subscribers_count h channel
     = length (attempted (trace (broadcast W data channel h)))).
Proof.
  intros Hne. rewrite broadcast_run. unfold trace. cbn [snd].
  rewrite attempted_send_events. unfold targets, get_subscribers_count.
  apply String.eqb_neq in Hne. rewrite Hne.
  rewrite get_subscribers_count_sum, length_channel_targets. simpl.
  assert (∀ items : list (string * gmap string (gset N)),
    (sum_list ((λ item, length (item_sockets channel item)) <$> items)
     ≤ sum_list (item_count channel <$> items))%nat
    ∧ ((∀ item s, item ∈ items → item.2 !! "*" = Some s → s = ∅) →
       sum_list (item_count channel <$> items)
       = sum_list ((λ item, length (item_sockets channel item)) <$> items)))
    as Hsum.
  { induction items as [|item items [IHle IHeq]]; [done|].
    cbn [fmap list_fmap sum_list]. unfold item_sockets at 1 3, item_count at 1 3.
    split.
    - destruct (item.2 !! channel) as [s|]; simpl.
      + unfold size, set_size. simpl. lia.
      + destruct (item.2 !! "*"); simpl; lia.
    - intros Hstar. rewrite IHeq.
      2:{ intros item' s Hin. apply Hstar. by right. }
      destruct (item.2 !! channel) as [s|] eqn:Hc; simpl.
      + unfold size, set_size. simpl. lia.
      + destruct (item.2 !! "*") as [s|] eqn:Hs; simpl; [|done].
        rewrite (Hstar item s); [by rewrite size_empty|by left|done]. }
  destruct (Hsum (map_to_list (_subscriptions h))) as [Hle Heq].
  split; [exact Hle|]. intros Hnone. apply Heq.
  intros [uid chans] s Hin Hs. apply elem_of_map_to_list in Hin.
  apply set_eq. intros ws. split; [|by intros ?%not_elem_of_empty].
  intros Hws. exfalso. apply (Hnone ws). by exists uid, chans, s.
Qed.

Lemma subscribers_count_and_broadcast_witness :
  (length (attempted (trace (broadcast Samples.W_up Samples.msg "messages"
                               Samples.hub_three)))
   ≤ get_subscribers_count Samples.hub_three "messages")%nat
  ∧ ((∀ ws, ¬ subscribed Samples.hub_three "*" ws) →
     get_subscribers_count Samples.hub_three "messages"
     = length (attempted (trace (broadcast Samples.W_up Samples.msg
                                   "messages" Samples.hub_three)))).
Proof.
  apply (subscribers_count_and_broadcast Samples.W_up Samples.msg "messages"
           Samples.hub_three).
  discriminate.
Defined.

(** A connection subscribed to the wildcard only is counted for
    [messages] and gets no broadcast on [messages]. *)
Example wildcard_subscriber_counted_not_served :
  get_subscribers_count (Samples.join 7 ["*"] init) "messages" = 1%nat
  ∧ attempted (trace (broadcast Samples.W_up Samples.msg "messages"
                        (Samples.join 7 ["*"] init))) = [].
Proof. split; vm_compute; reflexivity. Qed.

End SubscribeBroadcast.

(* ===================================================================== *)
(** ** The endpoint: what a frame can and cannot change *)
(* ===================================================================== *)

Section FrameKeeps.
Import Py ConnectionManager Endpoint.

Variables (W : world) (ws : N) (Q : hub → Prop).

(** [Q] survives the three changes a frame of [ws] can make to the hub. *)
Hypothesis Q_auth : ∀ h,
  hub_inv h → Q h → Q (set_connections (alter mark_authenticated ws) h).
Hypothesis Q_subscribe : ∀ h channel,
  hub_inv h → is_authenticated h ws = true → Q h →
  Q (subscribe_state h ws channel).
Hypothesis Q_disconnect : ∀ h,
  hub_inv h → Q h → Q (disconnect_state h ws).

Lemma triple_websocket_close (P : hub → Prop) (code : Z) :
  triple P (websocket_close W ws code) (λ _, P) P.
Proof.
  intros h Hh. unfold websocket_close, bind, emit.
  by destruct (close_ok W ws).
Qed.

Lemma keeps_drop_failed (h : hub) :
  hub_inv h ∧ Q h → hub_inv (drop_failed W h ws) ∧ Q (drop_failed W h ws).
Proof.
  intros [Hi Hq]. unfold drop_failed. destruct (send_ok W ws); [done|].
  split; [by apply inv_disconnect_state | by apply Q_disconnect].
Qed.

Lemma keeps_send_json (data : WSMessage) (P : hub → Prop) :
  (∀ h, P h → hub_inv h ∧ Q h) →
  triple P (send_json W ws data) (λ _ h, hub_inv h ∧ Q h)
    (λ h, hub_inv h ∧ Q h).
Proof.
  intros HP h Hh. rewrite send_json_run. by apply keeps_drop_failed, HP.
Qed.

Lemma keeps_handle_auth (token : string) :
  triple (λ h, hub_inv h ∧ Q h) (handle_auth W ws token)
    (λ _ h, hub_inv h ∧ Q h) (λ h, hub_inv h ∧ Q h).
Proof.
  intros h [Hi Hq]. rewrite handle_auth_run.
  destruct (validate_token h token); apply keeps_drop_failed; [|done].
  split; [by apply inv_alter | by apply Q_auth].
Qed.

Lemma keeps_subscribe_all (channels : list string) (h : hub) :
  hub_inv h → is_authenticated h ws = true → Q h →
  Q (foldl (λ h channel, subscribe_state h ws channel) h channels).
Proof.
  revert h. induction channels as [|c cs IH]; intros h Hi Ha Hq; [done|].
  cbn [foldl]. apply IH.
  - by apply inv_subscribe_state.
  - by rewrite is_authenticated_subscribe_state.
  - by apply Q_subscribe.
Qed.

Lemma keeps_handle_subscribe (channels : list string) :
  triple (λ h, (hub_inv h ∧ Q h) ∧ is_authenticated h ws = true)
    (handle_subscribe W ws channels)
    (λ _ h, hub_inv h ∧ Q h) (λ h, hub_inv h ∧ Q h).
Proof.
  intros h [[Hi Hq] Ha]. rewrite handle_subscribe_run by done.
  apply keeps_drop_failed. split.
  - by apply subscribe_all_run.
  - by apply keeps_subscribe_all.
Qed.

(** A frame of [ws] keeps the invariant together with [Q], provided [Q]
    holds once the frame's arrival is recorded. *)
Lemma keeps_handle_frame (data : pyval) (h : hub) :
  hub_inv h → Q (final (update_last_seen W ws h)) →
  hub_inv (final (handle_frame W ws data h))
  ∧ Q (final (handle_frame W ws data h)).
Proof.
  intros Hi Hq.
  assert (triple (λ h', h' = h) (handle_frame W ws data)
            (λ _ h', hub_inv h' ∧ Q h') (λ h', hub_inv h' ∧ Q h')) as Ht.
  { unfold handle_frame. eapply triple_bind.
    { apply (triple_modify _ _ (λ _ h', hub_inv h' ∧ Q h')).
      intros ? ->. split; [by apply inv_alter | exact Hq]. }
    intros ?. eapply triple_bind; [apply triple_lift|]. intros msg_type.
    destruct (eq_str msg_type "auth").
    { eapply triple_bind; [apply triple_lift|]. intros token.
      eapply triple_bind; [apply keeps_handle_auth|]. intros ?.
      by apply triple_ret. }
    destruct (eq_str msg_type "ping").
    { eapply triple_bind; [apply triple_lift|]. intros ts.
      eapply triple_bind; [by apply keeps_send_json|]. intros ?.
      by apply triple_ret. }
    destruct (eq_str msg_type "subscribe"); [|by apply triple_ret].
    eapply triple_bind; [apply triple_get|]. intros h0. simpl.
    destruct (is_authenticated h0 ws) eqn:Ha; simpl.
    - eapply triple_bind.
      { eapply triple_weaken;
          [apply (triple_lift (λ h', (hub_inv h' ∧ Q h') ∧ h0 = h'))|..].
        - done.
        - intros ? h' Hh'. exact Hh'.
        - by intros h' [Hh' _]. }
      intros channels. eapply triple_bind.
      { eapply triple_weaken; [apply keeps_handle_subscribe|..]; try done.
        intros h' [Hh' <-]. by split. }
      intros ?. by apply triple_ret.
    - eapply triple_bind.
      { eapply triple_weaken;
          [apply (triple_websocket_close (λ h', hub_inv h' ∧ Q h'))|..].
        - by intros h' [Hh' _].
        - intros ? h' Hh'. exact Hh'.
        - done. }
      intros ?. by apply triple_ret. }
  specialize (Ht h eq_refl). unfold final.
  by destruct (handle_frame W ws data h) as [[[c|e] h'] t].
Qed.

End FrameKeeps.

Section EndpointFacts.
Import Py ConnectionManager Endpoint.

(** A frame received from one connection changes nothing of another: its
    record, and with it its authentication, and its subscriptions are
    what they were, whatever the frame is and however its handling
    ends. *)
Theorem frame_leaves_others (W : world) (ws ws' : N) (data : pyval)
    (h : hub) :
  hub_inv h → ws' ≠ ws →
  _connections (final (handle_frame W ws data h)) !! ws'
  = _connections h !! ws'
  ∧ is_authenticated (final (handle_frame W ws data h)) ws'
    = is_authenticated h ws'
  ∧ _subscriptions (final (handle_frame W ws data h)) !! mk_user_id ws'
    = _subscriptions h !! mk_user_id ws'.
Proof.
  intros Hi Hne.
  set (Q := λ h' : hub,
         _connections h' !! ws' = _connections h !! ws'
         ∧ _subscriptions h' !! mk_user_id ws'
           = _subscriptions h !! mk_user_id ws').
  destruct (keeps_handle_frame W ws Q) with (data := data) (h := h)
    as [_ [Hc Hs]]; try done.
  - intros h' _ [Hc Hs]. split; [|done]. simpl.
    by rewrite lookup_alter_ne.
  - intros h' channel Hi' Ha [Hc Hs]. split.
    + by rewrite connections_subscribe_state.
    + rewrite <- Hs. unfold subscribe_state.
      destruct (_connections h' !! ws) as [info|] eqn:Hws; [|done].
      destruct (_subscriptions h' !! user_id info) as [chans|]; [|done].
      simpl. apply lookup_insert_ne.
      rewrite (wf_user_id h' (inv_wf _ Hi') _ _ Hws).
      intros Heq. by apply mk_user_id_inj in Heq.
  - intros h' Hi' [Hc Hs]. split.
    + rewrite connections_disconnect_state. by rewrite lookup_delete_ne.
    + rewrite <- Hs. unfold disconnect_state.
      destruct (_connections h' !! ws) as [info|] eqn:Hws; [|done].
      simpl. apply lookup_delete_ne.
      rewrite (wf_user_id h' (inv_wf _ Hi') _ _ Hws).
      intros Heq. by apply mk_user_id_inj in Heq.
  - split; [|done]. simpl. by rewrite lookup_alter_ne.
  - split; [done|]. split; [|done]. unfold is_authenticated. by rewrite Hc.
Qed.

Lemma frame_leaves_others_witness :
  is_authenticated
    (final (handle_frame Samples.W_down 8 (Samples.subscribe_frame ["messages"])
              Samples.hub_three)) 7
  = is_authenticated Samples.hub_three 7.
Proof.
  apply (frame_leaves_others Samples.W_down 8 7
           (Samples.subscribe_frame ["messages"]) Samples.hub_three).
  - apply reachable_inv, hub_three_reachable.
  - discriminate.
Defined.

(** Every received frame refreshes [last_seen], whatever its type: after
    the frame is handled the record of the connection, if it still has
    one, carries the clock of the frame's arrival. *)
Theorem frame_refreshes_last_seen (W : world) (ws : N) (data : pyval)
    (h : hub) (info : conn_info) :
  hub_inv h →
  _connections (final (handle_frame W ws data h)) !! ws = Some info →
  last_seen info = time W.
Proof.
  intros Hi.
  destruct (keeps_handle_frame W ws (refreshed W ws)) with (data := data)
    (h := h) as [_ Hq]; try done.
  - intros h' _ Hq info'. simpl. rewrite lookup_alter, decide_True by done.
    destruct (_connections h' !! ws) as [i|] eqn:Hc; simpl; [|done].
    intros [= <-]. simpl. by apply Hq.
  - intros h' channel _ _ Hq info'. rewrite connections_subscribe_state.
    apply Hq.
  - intros h' _ _ info'. rewrite connections_disconnect_state.
    by rewrite lookup_delete_eq.
  - intros info'. simpl. rewrite lookup_alter, decide_True by done.
    destruct (_connections h !! ws) as [i|]; simpl; [|done].
    by intros [= <-].
  - apply Hq.
Qed.

Lemma frame_refreshes_last_seen_witness :
  ∃ info,
    _connections (final (handle_frame Samples.W_later 7 (PDict [])
                           Samples.hub_one)) !! 7%N = Some info
    ∧ last_seen info = 2000%float.
Proof.
  eexists. split; [vm_compute; reflexivity|].
  eapply (frame_refreshes_last_seen Samples.W_later 7 (PDict [])
            Samples.hub_one).
  - apply reachable_inv, hub_one_reachable.
  - vm_compute. reflexivity.
Defined.

Lemma inv_receive_loop (ws : N) (frames : list (world * pyval)) :
  triple hub_inv (receive_loop ws frames) (λ _, hub_inv) hub_inv.
Proof.
  induction frames as [|[W data] frames IH]; simpl.
  - by apply triple_raise.
  - eapply triple_bind; [apply inv_handle_frame|].
    intros [|]; [apply IH | by apply triple_ret].
Qed.



(** A [ping] frame is answered with one [pong] frame that carries the
    ping's [timestamp] ([None] when it has none); the loop goes on, no
    socket is closed, and the connection need not be authenticated. *)
Theorem ping_is_answered (W : world) (ws : N) (kv : list (string * pyval))
    (h : hub) :
  assoc "type" kv = Some (PStr "ping") →
  result (handle_frame W ws (PDict kv) h) = Ok Continue
  ∧ closed (trace (handle_frame W ws (PDict kv) h)) = []
  ∧ ∃ frame,
      type frame = TPong
      ∧ payload frame
        = Some (PDict [("ping_timestamp",
                        default PNone (assoc "timestamp" kv))])
      ∧ trace (handle_frame W ws (PDict kv) h)
        = [if send_ok W ws then Sent ws frame else SendFailed ws frame].
Proof.
  intros Ht.
  assert (handle_frame W ws (PDict kv) h
          = (Ok Continue,
             drop_failed W (final (update_last_seen W ws h)) ws,
             [send_event W (pong W (default PNone (assoc "timestamp" kv))) ws]))
    as ->.
  { unfold handle_frame. set (sj := send_json W ws).
    unfold bind at 1, update_last_seen. unfold modify at 1.
    unfold bind at 1. simpl. rewrite Ht. simpl.
    unfold bind, ret. simpl. subst sj. by rewrite send_json_run. }
  unfold result, trace. cbn [fst snd]. split; [done|].
  unfold send_event. split; [by destruct (send_ok W ws)|].
  eexists. split; [|split; [|reflexivity]].
  - unfold dump, pong. simpl. by destruct (int_time W =? 0).
  - unfold dump, pong. simpl. by destruct (int_time W =? 0).
Qed.

Lemma ping_is_answered_witness :
  result (handle_frame Samples.W_up 7
            (PDict [("type", PStr "ping"); ("timestamp", PInt 42)])
            Samples.hub_one) = Ok Continue.
Proof.
  apply (ping_is_answered Samples.W_up 7
           [("type", PStr "ping"); ("timestamp", PInt 42)] Samples.hub_one).
  reflexivity.
Defined.

End EndpointFacts.

(* ===================================================================== *)
(** ** Start-up: the token the hub accepts *)
(* ===================================================================== *)

Section StartupFacts.
Import Schemas ConfigManager ConnectionManager.

Lemma started_token (c : Settings.t) (t : string) :
  validate_token (Lifespan.started c) t = true
  ↔ t = (if String.eqb (AuthConfig.token (Settings.auth c)) ""
         then "your_api_token" else AuthConfig.token (Settings.auth c)).
Proof.
  unfold Lifespan.started, Lifespan.sync_valid_tokens, validate_token.
  rewrite bool_decide_eq_true.
  destruct (String.eqb (AuthConfig.token (Settings.auth c)) ""); simpl.
  - apply elem_of_singleton.
  - rewrite elem_of_union, elem_of_singleton.
    split; [intros [?|?%elem_of_empty]; done|by left].
Qed.

(** The token of an accepted configuration is the one the document gives,
    and empty when it gives none. *)
Lemma auth_token_of_raw (a : AuthConfig.raw) (a' : AuthConfig.t) :
  AuthConfig.model_validate a = Some a' →
  AuthConfig.token a'
  = match AuthConfig.r_token a with Given tk => tk | _ => "" end.
Proof.
  unfold AuthConfig.model_validate. intros H.
  destruct (literal _ _ (AuthConfig.r_type a)) as [ty|]; [|done]. simpl in H.
  destruct (AuthConfig.r_token a) as [|tk|]; simpl in H.
  - repeat case_match; simplify_option_eq; done.
  - destruct (AuthConfig.validate_fixed_token _ tk); simpl in H; [|done].
    repeat case_match; simplify_option_eq; done.
  - done.
Qed.

Lemma settings_of_token (doc : document) (c : Settings.t) :
  settings_of doc = Ok c →
  AuthConfig.token (Settings.auth c)
  = match document_token doc with Given tk => tk | _ => "" end.
Proof.
  unfold settings_of, load, document_token.
  destruct doc as [| | | |r]; simpl; try (intros; by simplify_eq).
  unfold Settings.model_validate.
  destruct (nested ServerConfig.defaults _ _) as [s|]; simpl; [|done].
  destruct (Settings.r_auth r) as [|a|] eqn:Ha; simpl; [| |done].
  - repeat case_match; simpl; intros; by simplify_option_eq.
  - destruct (AuthConfig.model_validate a) as [a'|] eqn:Hv; simpl; [|done].
    apply auth_token_of_raw in Hv. rewrite <- Hv.
    repeat case_match; simpl; intros; by simplify_option_eq.
Qed.

Lemma startup_Ok (doc : document) (h : hub) :
  Lifespan.startup doc = Ok h →
  ∃ c, settings_of doc = Ok c ∧ h = Lifespan.started c.
Proof.
  unfold Lifespan.startup, settings_of.
  destruct doc as [| | | |r]; simpl; try done.
  - intros; simplify_eq. by eexists.
  - intros; simplify_eq. by eexists.
  - destruct (Settings.model_validate r) as [c|]; simpl; [|done].
    intros; simplify_eq. by eexists.
Qed.



(** A document that gives the empty string under [auth.token] while
    [auth.type] is [fixed_token], given or by default, stops the start. *)
Theorem startup_refuses_empty_fixed_token (r : Settings.raw)
    (a : AuthConfig.raw) :
  Settings.r_auth r = Given a →
  AuthConfig.r_type a = Omitted ∨ AuthConfig.r_type a = Given "fixed_token" →
  AuthConfig.r_token a = Given "" →
  Lifespan.startup (Mapping r) = Raise ValidationError.
Proof.
  intros Ha Hty Htk.
  assert (AuthConfig.model_validate a = None) as Hnone.
  { unfold AuthConfig.model_validate. rewrite Htk.
    destruct Hty as [->| ->]; reflexivity. }
  unfold Lifespan.startup, load. simpl.
  unfold Settings.model_validate. rewrite Ha. simpl. rewrite Hnone.
  by destruct (nested ServerConfig.defaults _ _).
Qed.

Lemma startup_refuses_empty_fixed_token_witness :
  Lifespan.startup (Mapping (Samples.with_token "")) = Raise ValidationError.
Proof.
  eapply (startup_refuses_empty_fixed_token (Samples.with_token ""));
    [reflexivity|by left|reflexivity].
Defined.

End StartupFacts.

(* ===================================================================== *)
(** ** Accepted configurations and the watch loop *)
(* ===================================================================== *)

Section CredentialFacts.
Import Schemas ConfigManager.

Lemma validated_given_nonempty (f : field string) (v : string) :
  validated "" (required_when_enabled (Some true)) f = Some v →
  f ≠ Omitted → v ≠ "".
Proof.
  destruct f as [|a|]; simpl; [done| |done].
  unfold required_when_enabled. simpl.
  destruct (String.eqb_spec a ""); simpl; intros; simplify_eq; done.
Qed.

Lemma feishu_given_credentials (r : FeishuConfig.raw) (c : FeishuConfig.t) :
  FeishuConfig.model_validate r = Some c →
  FeishuConfig.enabled c = true →
  Forall2 (λ f v, f ≠ Omitted → v ≠ "")
    (FeishuConfig.raw_credentials r) (FeishuConfig.credentials c).
Proof.
  unfold FeishuConfig.model_validate, FeishuConfig.validate_feishu_keys.
  destruct (plain false (FeishuConfig.r_enabled r)) as [e|]; simpl; [|done].
  intros H He. simplify_option_eq.
  repeat constructor; simpl; by eapply validated_given_nonempty.
Qed.

Lemma wecom_given_credentials (r : WecomConfig.raw) (c : WecomConfig.t) :
  WecomConfig.model_validate r = Some c →
  WecomConfig.enabled c = true →
  Forall2 (λ f v, f ≠ Omitted → v ≠ "")
    (WecomConfig.raw_credentials r) (WecomConfig.credentials c).
Proof.
  unfold WecomConfig.model_validate, WecomConfig.validate_wecom_keys.
  destruct (plain false (WecomConfig.r_enabled r)) as [e|]; simpl; [|done].
  intros H He. simplify_option_eq.
  repeat constructor; simpl; by eapply validated_given_nonempty.
Qed.

Lemma dingtalk_given_credentials (r : DingTalkConfig.raw)
    (c : DingTalkConfig.t) :
  DingTalkConfig.model_validate r = Some c →
  DingTalkConfig.enabled c = true →
  Forall2 (λ f v, f ≠ Omitted → v ≠ "")
    (DingTalkConfig.raw_credentials r) (DingTalkConfig.credentials c).
Proof.
  unfold DingTalkConfig.model_validate, DingTalkConfig.validate_dingtalk_keys.
  destruct (plain false (DingTalkConfig.r_enabled r)) as [e|]; simpl; [|done].
  intros H He. simplify_option_eq.
  repeat constructor; simpl; by eapply validated_given_nonempty.
Qed.

Lemma qq_given_credentials (r : QQConfig.raw) (c : QQConfig.t) :
  QQConfig.model_validate r = Some c →
  QQConfig.enabled c = true →
  Forall2 (λ f v, f ≠ Omitted → v ≠ "")
    (QQConfig.raw_credentials r) (QQConfig.credentials c).
Proof.
  unfold QQConfig.model_validate, QQConfig.validate_qq_keys.
  destruct (plain false (QQConfig.r_enabled r)) as [e|]; simpl; [|done].
  intros H He. simplify_option_eq.
  repeat constructor; simpl; by eapply validated_given_nonempty.
Qed.

Lemma settings_of_platforms (doc : document) (c : Settings.t)
    (p : PlatformsConfig.raw) :
  settings_of doc = Ok c →
  document_platforms doc = Some p →
  PlatformsConfig.model_validate p = Some (Settings.platforms c).
Proof.
  unfold settings_of, load, document_platforms.
  destruct doc as [| | | |r]; simpl; try done.
  destruct (Settings.r_platforms r) as [|p'|] eqn:Hp; try done.
  intros H [= ->]. revert H. unfold Settings.model_validate. rewrite Hp.
  simpl. destruct (PlatformsConfig.model_validate p) as [pc|]; simpl.
  - repeat case_match; simpl; intros; by simplify_option_eq.
  - repeat case_match; simpl; intros; by simplify_option_eq.
Qed.

(** In a configuration that [load] accepts, every credential that the
    document gives for a platform it enables is non-empty: an enabled
    platform can have an empty credential only where the document leaves
    the key out. *)
Theorem accepted_credentials_nonempty (doc : document) (c : Settings.t)
    (p : PlatformsConfig.raw) :
  settings_of doc = Ok c →
  document_platforms doc = Some p →
  (∀ r, PlatformsConfig.r_feishu p = Given r →
     FeishuConfig.enabled (PlatformsConfig.feishu (Settings.platforms c))
     = true →
     Forall2 (λ f v, f ≠ Omitted → v ≠ "")
       (FeishuConfig.raw_credentials r)
       (FeishuConfig.credentials
          (PlatformsConfig.feishu (Settings.platforms c))))
  ∧ (∀ r, PlatformsConfig.r_wecom p = Given r →
     WecomConfig.enabled (PlatformsConfig.wecom (Settings.platforms c))
     = true →
     Forall2 (λ f v, f ≠ Omitted → v ≠ "")
       (WecomConfig.raw_credentials r)
       (WecomConfig.credentials
          (PlatformsConfig.wecom (Settings.platforms c))))
  ∧ (∀ r, PlatformsConfig.r_dingtalk p = Given r →
     DingTalkConfig.enabled (PlatformsConfig.dingtalk (Settings.platforms c))
     = true →
     Forall2 (λ f v, f ≠ Omitted → v ≠ "")
       (DingTalkConfig.raw_credentials r)
       (DingTalkConfig.credentials
          (PlatformsConfig.dingtalk (Settings.platforms c))))
  ∧ (∀ r, PlatformsConfig.r_qq p = Given r →
     QQConfig.enabled (PlatformsConfig.qq (Settings.platforms c)) = true →
     Forall2 (λ f v, f ≠ Omitted → v ≠ "")
       (QQConfig.raw_credentials r)
       (QQConfig.credentials (PlatformsConfig.qq (Settings.platforms c)))).
Proof.
  intros Hc Hp. pose proof (settings_of_platforms doc c p Hc Hp) as Hv.
  unfold PlatformsConfig.model_validate in Hv.
  repeat split; intros r Hr Hen; rewrite Hr in Hv; simpl in Hv;
    simplify_option_eq; rewrite <- Hv in Hen |- *; simpl in Hen |- *.
  - by apply feishu_given_credentials.
  - by apply wecom_given_credentials.
  - by apply dingtalk_given_credentials.
  - by apply qq_given_credentials.
Qed.

Lemma accepted_credentials_nonempty_witness :
  ∃ c, settings_of (Mapping (Samples.qq_enabled (Given "102030") Omitted))
       = Ok c
       ∧ Forall2 (λ f v, f ≠ Omitted → v ≠ "")
           (QQConfig.raw_credentials (Samples.qq_raw (Given "102030") Omitted))
           (QQConfig.credentials (PlatformsConfig.qq (Settings.platforms c))).
Proof.
  eexists. split; [vm_compute; reflexivity|].
  apply (proj2 (proj2 (proj2
    (accepted_credentials_nonempty
       (Mapping (Samples.qq_enabled (Given "102030") Omitted)) _
       (Samples.qq_section (Given "102030") Omitted) eq_refl eq_refl)))
    (Samples.qq_raw (Given "102030") Omitted));
    reflexivity.
Defined.

End CredentialFacts.

Section WatchFacts.
Import Schemas ConfigManager.

(** What a load returns does not depend on the manager it runs on. *)
Lemma load_result (cm : config_manager) (doc : document) :
  (load cm doc).1 = settings_of doc.
Proof.
  unfold settings_of, load. destruct doc; try done;
    by destruct (_raw_config_to_settings _).
Qed.

Lemma load_config (cm : config_manager) (doc : document) :
  _config (load cm doc).2
  = match settings_of doc with
    | Ok c => Some c
    | Raise _ => _config cm
    end.
Proof.
  unfold settings_of, load. destruct doc; try done;
    by destruct (_raw_config_to_settings _).
Qed.

Lemma load_version_step (cm : config_manager) (doc : document) :
  version (load cm doc).2 ≤ version cm + 1.
Proof.
  unfold load. destruct doc; repeat case_match; simpl; lia.
Qed.

Lemma reload_load (cm : config_manager) (doc : document) :
  (reload cm doc).1 = load cm doc.
Proof. unfold reload. by destruct (load cm doc) as [[c|e] cm']. Qed.

(** As long as every reading of the modification time equals the one taken
    before the loop, the watch loop reloads nothing: the manager is left
    as it was, whatever the file holds. *)
Theorem watch_unchanged_file (start : option float) (cm : config_manager)
    (ticks : list tick) :
  (∀ last_mtime, start = Some last_mtime →
     Forall (λ t, match t with
                  | Seen current_mtime _ =>
                      PrimFloat.eqb current_mtime last_mtime = true
                  | Gone => True
                  end) ticks) →
  _watch_loop start cm ticks = cm.
Proof.
  destruct start as [last|]; [|done]. intros H.
  specialize (H last eq_refl). simpl.
  induction H as [|[|m doc] ticks Ht _ IH]; simpl; [done|done|].
  by rewrite Ht.
Qed.

Lemma watch_unchanged_file_witness :
  _watch_loop (Some 5%float) (load init Absent).2
    [Seen 5%float Unreadable; Seen 5%float Blank; Gone]
  = (load init Absent).2.
Proof.
  apply (watch_unchanged_file (Some 5%float)). intros last [= <-].
  repeat constructor.
Defined.

(** Once a turn finds the path gone the loop is over: what the file is or
    becomes afterwards has no effect on the manager. *)
Theorem watch_stops_when_file_disappears (start : option float)
    (cm : config_manager) (before after : list tick) :
  _watch_loop start cm (before ++ Gone :: after)
  = _watch_loop start cm before.
Proof.
  destruct start as [last|]; [|done]. simpl.
  revert last cm. induction before as [|[|m doc] before IH]; intros last cm;
    simpl; [done|done|].
  repeat case_match; apply IH.
Qed.

(** A manager that holds a configuration holds one after any run of the
    watch loop, so that [config] does not raise; and the one it holds is
    the one from before the loop or the one that a document found by a
    turn of the loop validates to. *)
Theorem watch_snapshot_provenance (start : option float)
    (cm : config_manager) (ticks : list tick) (c0 : Settings.t) :
  config cm = Ok c0 →
  ∃ c, config (_watch_loop start cm ticks) = Ok c
       ∧ (c = c0
          ∨ ∃ mtime doc, Seen mtime doc ∈ ticks ∧ settings_of doc = Ok c).
Proof.
  destruct start as [last|]; simpl; [|intros; exists c0; by split; [|left]].
  revert last cm c0.
  induction ticks as [|[|m doc] ticks IH]; intros last cm c0 Hc; simpl.
  - exists c0. by split; [|left].
  - exists c0. by split; [|left].
  - assert (∀ last' cm' c',
      config cm' = Ok c' →
      c' = c0 ∨ settings_of doc = Ok c' →
      ∃ c, config (watch_ticks last' cm' ticks) = Ok c
           ∧ (c = c0 ∨ ∃ mtime doc', Seen mtime doc' ∈ Seen m doc :: ticks
                                     ∧ settings_of doc' = Ok c)) as Hnext.
    { intros last' cm' c' Hc' Hfrom.
      destruct (IH last' cm' c' Hc') as (c & Hcfg & Hor).
      exists c. split; [done|].
      destruct Hor as [->|(mt & d & Hin & Hd)].
      - destruct Hfrom as [->|Hd]; [by left|].
        right. exists m, doc. split; [by left|done].
      - right. exists mt, d. split; [by right|done]. }
    pose proof (load_config cm doc) as Hl.
    pose proof (reload_load cm doc) as Hr.
    unfold config in Hc. destruct (_config cm) as [c1|] eqn:Hcm; [|done].
    simplify_eq.
    destruct (negb (PrimFloat.eqb m last)).
    + destruct (reload cm doc) as [[[c|e] cm'] cbs]; simpl in Hr;
        rewrite <- Hr in Hl; simpl in Hl;
        pose proof (load_result cm doc) as Hres; rewrite <- Hr in Hres;
        simpl in Hres; rewrite <- Hres in Hl.
      * apply (Hnext m cm' c); [unfold config; by rewrite Hl|by right].
      * apply (Hnext last cm' c0); [unfold config; by rewrite Hl|by left].
    + apply (Hnext last cm c0); [unfold config; by rewrite Hcm|by left].
Qed.

Lemma watch_snapshot_provenance_witness :
  ∃ c, config (_watch_loop (Some 5%float) (load init Absent).2
                 [Seen 6%float Unreadable;
                  Seen 7%float (Mapping (Samples.with_token "s3cret"))])
       = Ok c
       ∧ (c = Settings.defaults
          ∨ ∃ mtime doc,
              Seen mtime doc
              ∈ [Seen 6%float Unreadable;
                 Seen 7%float (Mapping (Samples.with_token "s3cret"))]
              ∧ settings_of doc = Ok c).
Proof.
  apply (watch_snapshot_provenance (Some 5%float) (load init Absent).2).
  reflexivity.
Defined.

(** The watch loop never lowers the version and raises it by at most one
    for each turn. *)
Theorem watch_version_bounds (start : option float) (cm : config_manager)
    (ticks : list tick) :
  version cm ≤ version (_watch_loop start cm ticks)
  ≤ version cm + Z.of_nat (length ticks).
Proof.
  destruct start as [last|]; simpl; [|lia].
  revert last cm. induction ticks as [|[|m doc] ticks IH]; intros last cm;
    simpl; [lia|lia|].
  pose proof (load_version_monotone cm doc) as Hlo.
  pose proof (load_version_step cm doc) as Hhi.
  pose proof (reload_load cm doc) as Hr.
  destruct (negb (PrimFloat.eqb m last)).
  - destruct (reload cm doc) as [[[c|e] cm'] cbs]; simpl in Hr;
      rewrite <- Hr in Hlo, Hhi; simpl in Hlo, Hhi.
    + specialize (IH m cm'). lia.
    + specialize (IH last cm'). lia.
  - specialize (IH last cm). lia.
Qed.

End WatchFacts.

(* ===================================================================== *)
(** ** Outbound: what the adapters answer *)
(* ===================================================================== *)

Section OutboundFacts.
Import Py MessageRouter.

Lemma feishu_send_message_Ok (B : builtins) (cl : option Feishu.client)
    (to message_type content conversation_type id : string) :
  Feishu.send_message B cl to message_type content conversation_type = Ok id →
  id = to.
Proof.
  unfold Feishu.send_message, Feishu.send_as_text.
  repeat case_match; intros; by simplify_eq.
Qed.

(** Through the router, a send to Feishu that succeeds returns as message
    id the receiver id it was called with, whatever the type of the
    message and of the conversation: the id the platform gave the message
    is not what the caller gets. *)
Theorem feishu_message_id_is_receiver (E : call_env) (r : router)
    (B : builtins) (cl : option Feishu.client)
    (to message_type content conversation_type id : string) :
  get_adapter (adapter_manager r) "feishu" = Some (feishu_adapter B cl) →
  (send_and_wait E r "feishu" to message_type content conversation_type).1
  = Ok id →
  id = to.
Proof.
  intros Ha. rewrite send_and_wait_outcome.
  destruct (deadline_elapsed E); [done|].
  unfold route_outgoing. rewrite Ha. simpl.
  destruct (Feishu.send_message B cl to message_type content
              conversation_type) as [id'|e] eqn:Hs; [|done].
  intros [= <-]. by eapply feishu_send_message_Ok.
Qed.

Lemma feishu_message_id_is_receiver_witness :
  (send_and_wait (Samples.call "00ee" false)
     (init Samples.feishu_registry) "feishu" "oc_42" "card" "{}" "group").1
  = Ok "oc_42".
Proof.
  assert (∃ id,
    (send_and_wait (Samples.call "00ee" false)
       (init Samples.feishu_registry) "feishu" "oc_42" "card" "{}" "group").1
    = Ok id) as [id Hid] by (eexists; vm_compute; reflexivity).
  rewrite Hid. f_equal.
  eapply (feishu_message_id_is_receiver (Samples.call "00ee" false)
            (init Samples.feishu_registry) (rt_builtins Samples.R0)
            (Some Samples.feishu_up));
    [reflexivity|exact Hid].
Defined.

(** The Feishu adapter sends a message as text unless its type is [card]
    and its content parses as JSON: every other message type, and a card
    whose content is not JSON, goes out exactly as the same content sent
    with type [text]. *)
Theorem feishu_sends_as_text (B : builtins) (cl : option Feishu.client)
    (to message_type content conversation_type : string) :
  message_type ≠ "card" ∨ json_loads B content = None →
  Feishu.send_message B cl to message_type content conversation_type
  = Feishu.send_message B cl to "text" content conversation_type.
Proof.
  intros H. unfold Feishu.send_message. destruct cl as [c|]; [|done].
  simpl. destruct (String.eqb_spec message_type "text") as [->|_]; [done|].
  destruct (String.eqb_spec message_type "card") as [->|_]; [|done].
  destruct H as [?| ->]; done.
Qed.

Lemma feishu_sends_as_text_witness :
  Feishu.send_message (rt_builtins Samples.R0) (Some Samples.feishu_up)
    "ou_7" "image" "img_key" "user"
  = Feishu.send_message (rt_builtins Samples.R0) (Some Samples.feishu_up)
      "ou_7" "text" "img_key" "user".
Proof.
  apply (feishu_sends_as_text (rt_builtins Samples.R0)
           (Some Samples.feishu_up) "ou_7" "image" "img_key" "user").
  by left.
Defined.

(** The webhook entry point of the Feishu adapter creates at most one task
    for an event, and that task is the plain message handler on the event
    itself: the handler for group-at messages is never started from here,
    also not by an event of type [im.message.group_at_v1]; outside webhook
    mode nothing is started and the answer is the success response. *)
Theorem webhook_never_starts_at_handler (exn_str : exn → string)
    (_connection_mode : string) (event_data : pyval) :
  ((Feishu.handle_webhook exn_str _connection_mode event_data).2 = []
   ∨ (Feishu.handle_webhook exn_str _connection_mode event_data).2
     = [Feishu.MessageEvent event_data])
  ∧ (_connection_mode ≠ "webhook" →
     Feishu.handle_webhook exn_str _connection_mode event_data
     = (Feishu.success, [])).
Proof.
  unfold Feishu.handle_webhook. split.
  - destruct (negb (String.eqb _connection_mode "webhook")); [by left|].
    destruct (get event_data "header" empty_dict) as [header|]; simpl;
      [|by left].
    destruct (get event_data "event" (PStr "")) as [event|]; simpl;
      [|by left].
    destruct (get header "event_type" (PStr "")) as [event_type|]; simpl;
      [|by left].
    destruct (get header "log_id" (PStr "")) as [log_id|]; simpl; [|by left].
    destruct (eq_str event_type "im.message.receive_v1"); simpl; [by right|].
    destruct (eq_str event_type "im.message.group_at_v1"); simpl;
      [by right|by left].
  - intros Hne. apply String.eqb_neq in Hne. by rewrite Hne.
Qed.

Lemma webhook_never_starts_at_handler_witness :
  Feishu.handle_webhook (λ _, "error") "websocket" Samples.feishu_group_event
  = (Feishu.success, []).
Proof.
  apply (webhook_never_starts_at_handler (λ _, "error") "websocket"
           Samples.feishu_group_event).
  discriminate.
Defined.

(** A QQ message that arrives with an id in a conversation makes that id
    the one the adapter replies to in that conversation: the next send to
    a group passes it as [msg_id] to the API. *)
Theorem qq_reply_uses_last_message_id (now_s : Z) (message : QQ.BotMessage)
    (conversation_type : string) (ids ids' : QQ.last_msg_ids)
    (m : Base.Message) (to : string) (a : QQ.api)
    (message_type content : string) :
  QQ._handle_message now_s message conversation_type ids = Ok (m, ids') →
  Base.conversation_id (Base.conversation m) = PStr to →
  to ≠ "" →
  truthy (Base.message_id m) = true →
  QQ.last_msg_id ids' to = Base.message_id m
  ∧ QQ.send_message (Some a) ids' to message_type content "group"
    = match QQ.post_group_message a to (Base.message_id m) content with
      | Ok r => Ok (QQ.response_id r)
      | Raise _ => Ok (PStr "")
      end.
Proof.
  intros Hh Hconv Hto Hid.
  assert (QQ.last_msg_id ids' to = Base.message_id m) as Hlast.
  { revert Hh. unfold QQ._handle_message.
    set (conv := if String.eqb conversation_type "group" then _ else _).
    set (msg_id := QQ.getattr (QQ.m_id message) (PStr "")).
    destruct (truthy msg_id && truthy conv) eqn:Ht.
    - destruct (hashable conv) eqn:Hhash; simpl; [|done].
      intros [= <- <-]. simpl in *. rewrite Hconv.
      unfold QQ.last_msg_id. simpl. by rewrite String.eqb_refl.
    - simpl. intros [= <- <-]. simpl in *. subst conv msg_id.
      rewrite Hconv, Hid in Ht. simpl in Ht.
      apply String.eqb_neq in Hto. by rewrite Hto in Ht. }
  split; [done|]. unfold QQ.send_message. simpl. by rewrite Hlast.
Qed.

Lemma qq_reply_uses_last_message_id_witness :
  ∃ m ids',
    QQ.on_group_at_message_create 1700000000 Samples.qq_group_message []
    = Ok (m, ids')
    ∧ QQ.send_message (Some Samples.qq_echo) ids' "g_1" "text" "hi" "group"
      = Ok (PStr "m_77").
Proof.
  eexists _, _. split; [vm_compute; reflexivity|].
  refine (eq_trans (proj2 (qq_reply_uses_last_message_id 1700000000
            Samples.qq_group_message "group" [] _ _ "g_1" Samples.qq_echo
            "text" "hi" _ _ _ _)) _);
    first [reflexivity | discriminate].
Defined.



End OutboundFacts.

(* ===================================================================== *)
(** ** Authentication over the life of a connection *)
(* ===================================================================== *)

Section AuthenticationFacts.
Import Py ConnectionManager Endpoint.

(** An authenticated connection stays authenticated whatever frame it
    sends next, an [auth] frame with a token that is not valid included:
    after the frame it is authenticated still, or the manager has dropped
    it. *)
Theorem frame_keeps_authenticated (W : world) (ws : N) (data : pyval)
    (h : hub) :
  hub_inv h → is_authenticated h ws = true →
  is_authenticated (final (handle_frame W ws data h)) ws = true
  ∨ _connections (final (handle_frame W ws data h)) !! ws = None.
Proof.
  intros Hi Ha.
  set (Q := λ h' : hub,
         is_authenticated h' ws = true ∨ _connections h' !! ws = None).
  destruct (keeps_handle_frame W ws Q) with (data := data) (h := h)
    as [_ HQ]; try done.
  - intros h' _ [Ha'|Hn]; unfold Q, is_authenticated in *; simpl.
    + left. rewrite lookup_alter_eq.
      by destruct (_connections h' !! ws).
    + right. by rewrite lookup_alter_eq, Hn.
  - intros h' channel _ Ha' _. left.
    by rewrite is_authenticated_subscribe_state.
  - intros h' _ _. right. rewrite connections_disconnect_state.
    apply lookup_delete_eq.
  - left. unfold is_authenticated in *. simpl. rewrite lookup_alter_eq.
    by destruct (_connections h !! ws).
Qed.

Lemma frame_keeps_authenticated_witness :
  is_authenticated
    (final (handle_frame Samples.W_up 7 (Samples.auth_frame "wrong")
              (Samples.join 7 ["messages"] init))) 7 = true
  ∨ _connections
      (final (handle_frame Samples.W_up 7 (Samples.auth_frame "wrong")
                (Samples.join 7 ["messages"] init))) !! 7%N = None.
Proof.
  apply (frame_keeps_authenticated Samples.W_up 7
           (Samples.auth_frame "wrong") (Samples.join 7 ["messages"] init)).
  - apply reachable_inv. unfold Samples.join.
    do 2 apply reach_frame. apply reach_connect, reach_init.
  - vm_compute. reflexivity.
Defined.

(** In a hub the application can reach, a broadcast on a named channel
    calls [send_json] on authenticated connections only. *)
Theorem named_broadcast_only_authenticated (W : world) (data : WSMessage)
    (channel : string) (h : hub) (ws : N) :
  reachable h → channel ≠ "*" →
  ws ∈ attempted (trace (broadcast W data channel h)) →
  is_authenticated h ws = true.
Proof.
  intros Hr Hne. rewrite broadcast_run. unfold trace. cbn [snd].
  rewrite attempted_send_events. unfold targets.
  apply String.eqb_neq in Hne. rewrite Hne.
  intros Hin%elem_of_channel_targets.
  by apply (inv_auth h (reachable_inv h Hr) channel).
Qed.

Lemma named_broadcast_only_authenticated_witness :
  is_authenticated Samples.hub_three 7 = true.
Proof.
  apply (named_broadcast_only_authenticated Samples.W_up Samples.msg
           "messages" Samples.hub_three 7).
  - apply hub_three_reachable.
  - discriminate.
  - vm_compute. by left.
Defined.

End AuthenticationFacts.

(* ===================================================================== *)
(** ** The router and the reload callbacks: what a call leaves alone *)
(* ===================================================================== *)

Section FrameFacts.
Import Schemas ConfigManager.

(** A call to [send_and_wait] changes nothing of the router but the entry
    under the key it drew: the registry and the running flag are what they
    were, and so is every pending entry under another key, whether the
    call returns, raises or times out. *)
Theorem send_and_wait_leaves_other_entries (E : MessageRouter.call_env)
    (r : MessageRouter.router)
    (platform to message_type content conversation_type : string) :
  MessageRouter.adapter_manager
    (MessageRouter.send_and_wait E r platform to message_type content
       conversation_type).2
  = MessageRouter.adapter_manager r
  ∧ MessageRouter._running
      (MessageRouter.send_and_wait E r platform to message_type content
         conversation_type).2
    = MessageRouter._running r
  ∧ ∀ key,
      key ≠ MessageRouter.create_message_id (MessageRouter.uuid_hex E) →
      MessageRouter._pending_messages
        (MessageRouter.send_and_wait E r platform to message_type content
           conversation_type).2 !! key
      = MessageRouter._pending_messages r !! key.
Proof.
  split; [|split].
  - unfold MessageRouter.send_and_wait. simpl.
    by destruct (MessageRouter.wait_for _ _).
  - unfold MessageRouter.send_and_wait. simpl.
    by destruct (MessageRouter.wait_for _ _).
  - intros key Hne. rewrite send_and_wait_pending.
    by apply lookup_delete_ne.
Qed.

Lemma callbacks_load (cm : config_manager) (doc : document) :
  _callbacks (load cm doc).2 = _callbacks cm.
Proof. unfold load. destruct doc; repeat case_match; done. Qed.

Lemma callbacks_on_change (cm : config_manager) (cbs : list callback) :
  _callbacks (foldl on_change cm cbs) = _callbacks cm ++ cbs.
Proof.
  revert cm. induction cbs as [|cb cbs IH]; intros cm; simpl.
  - by rewrite app_nil_r.
  - rewrite IH. simpl. by rewrite <- app_assoc.
Qed.

(** A reload that succeeds calls every registered callback once, in the
    order of registration, with the configuration just loaded, whether or
    not it differs from the one before and whatever the callbacks before
    it did; a reload that fails calls none. *)
Theorem reload_notifies_callbacks (cm : config_manager)
    (cbs : list callback) (doc : document) :
  (reload (foldl on_change cm cbs) doc).2
  = match settings_of doc with
    | Ok c => (λ cb : callback, cb c) <$> (_callbacks cm ++ cbs)
    | Raise _ => []
    end.
Proof.
  unfold reload.
  pose proof (load_result (foldl on_change cm cbs) doc) as Hres.
  pose proof (callbacks_load (foldl on_change cm cbs) doc) as Hcb.
  destruct (load (foldl on_change cm cbs) doc) as [[c|e] cm'];
    simpl in *; rewrite <- Hres; [|done].
  by rewrite Hcb, callbacks_on_change.
Qed.

End FrameFacts.
